(** * PromoStudio (mediaplay): a shallow embedding of the authoring tool

    The development follows the repository's components:
    - [JS]: the JavaScript string operations and regular expressions that
      the application shell relies on;
    - [TestMode]: the task tracker of [TestModePanel];
    - [PhotoEdit]: the editor state and the canvas pipeline of [PhotoEditor];
    - [Voice]: the application shell with the simulated voice command;
    - [Scheduler]: the application shell with the manual save form.

    Definitions come first, the properties of each component follow. *)

From Stdlib Require Import ZArith NArith QArith List String Ascii Bool Lia.
From Stdlib Require Import DecimalString DecimalZ FinFun Sorted.
Import ListNotations.

Close Scope Q_scope.
Local Open Scope Z_scope.

(* ===================================================================== *)
(** ** JavaScript strings *)
(* ===================================================================== *)

Module JS.

(** A JavaScript string is a sequence of UTF-16 code units. *)
Definition jsstring := list N.

(** Literals of this file are written as UTF-8 text; [utf16] decodes the
    one-, two- and three-byte forms (the Basic Multilingual Plane). *)
Fixpoint utf16_bytes (bs : list N) : jsstring :=
  match bs with
  | [] => []
  | b :: rest =>
      if (b <? 128)%N then b :: utf16_bytes rest
      else if (b <? 224)%N then
        match rest with
        | c :: rest' =>
            N.lor (N.shiftl (N.land b 31) 6) (N.land c 63) :: utf16_bytes rest'
        | [] => [b]
        end
      else
        match rest with
        | c :: d :: rest' =>
            N.lor (N.lor (N.shiftl (N.land b 15) 12) (N.shiftl (N.land c 63) 6))
                  (N.land d 63) :: utf16_bytes rest'
        | _ => [b]
        end
  end.

Definition utf16 (s : string) : jsstring :=
  utf16_bytes (map N_of_ascii (list_ascii_of_string s)).

(** Strict equality [===] of two strings. *)
Fixpoint str_eqb (a b : jsstring) : bool :=
  match a, b with
  | [], [] => true
  | x :: a', y :: b' => (x =? y)%N && str_eqb a' b'
  | _, _ => false
  end.

(** The repertoire on which the case mapping and the decomposition below
    are those of the language: Basic Latin and the Latin-1 Supplement,
    the letters of the Spanish and English commands that the interpreter
    is written for. *)
Definition isLatin1 (s : jsstring) : bool := forallb (fun c => c <? 256)%N s.

(** [String.prototype.toLowerCase] on that repertoire; other code units
    are left as they are. *)
Definition lower_unit (c : N) : N :=
  if ((65 <=? c) && (c <=? 90))%N then (c + 32)%N
  else if ((192 <=? c) && (c <=? 222) && negb (c =? 215))%N then (c + 32)%N
  else c.

Definition toLowerCase (s : jsstring) : jsstring := map lower_unit s.

(** Canonical decomposition of the precomposed letters of the Latin-1
    Supplement, U+00C0 to U+00FF: the base letter followed by its
    combining mark. The table is indexed by the low five bits; the base
    letters are given in upper case. *)
Definition latin1_decomposition (i : N) : option (N * N) :=
  match i with
  | 0%N => Some (65, 768)   | 1%N => Some (65, 769)   | 2%N => Some (65, 770)
  | 3%N => Some (65, 771)   | 4%N => Some (65, 776)   | 5%N => Some (65, 778)
  | 7%N => Some (67, 807)
  | 8%N => Some (69, 768)   | 9%N => Some (69, 769)   | 10%N => Some (69, 770)
  | 11%N => Some (69, 776)
  | 12%N => Some (73, 768)  | 13%N => Some (73, 769)  | 14%N => Some (73, 770)
  | 15%N => Some (73, 776)
  | 17%N => Some (78, 771)
  | 18%N => Some (79, 768)  | 19%N => Some (79, 769)  | 20%N => Some (79, 770)
  | 21%N => Some (79, 771)  | 22%N => Some (79, 776)
  | 25%N => Some (85, 768)  | 26%N => Some (85, 769)  | 27%N => Some (85, 770)
  | 28%N => Some (85, 776)
  | 29%N => Some (89, 769)
  | _ => None
  end%N.

Definition nfd_unit (c : N) : list N :=
  if ((192 <=? c) && (c <=? 222))%N then
    match latin1_decomposition (c - 192) with
    | Some (base, mark) => [base; mark]
    | None => [c]
    end
  else if ((224 <=? c) && (c <=? 254))%N then
    match latin1_decomposition (c - 224) with
    | Some (base, mark) => [(base + 32)%N; mark]
    | None => [c]
    end
  else if (c =? 255)%N then [121; 776]%N
  else [c].

(** [String.prototype.normalize('NFD')] on the same repertoire. *)
Definition normalizeNFD (s : jsstring) : jsstring := flat_map nfd_unit s.

(** The class of the combining diacritical marks, U+0300 to U+036F. *)
Definition isCombiningMark (c : N) : bool := ((768 <=? c) && (c <=? 879))%N.

(** [s.replace(re, '')] for the global pattern of that class. *)
Definition stripCombiningMarks (s : jsstring) : jsstring :=
  filter (fun c => negb (isCombiningMark c)) s.

(** ECMAScript [LineTerminator]. *)
Definition isLineTerminator (c : N) : bool :=
  ((c =? 10) || (c =? 13) || (c =? 8232) || (c =? 8233))%N.

(** ECMAScript [WhiteSpace] and [LineTerminator], what [trim] removes. *)
Definition isWhiteSpace (c : N) : bool :=
  ((c =? 9) || (c =? 11) || (c =? 12) || (c =? 32) || (c =? 160)
   || (c =? 5760) || ((8192 <=? c) && (c <=? 8202))
   || (c =? 8239) || (c =? 8287) || (c =? 12288) || (c =? 65279))%N
  || isLineTerminator c.

Fixpoint trimStart (s : jsstring) : jsstring :=
  match s with
  | c :: s' => if isWhiteSpace c then trimStart s' else s
  | [] => []
  end.

Definition trimEnd (s : jsstring) : jsstring := rev (trimStart (rev s)).

(** [String.prototype.trim] *)
Definition trim (s : jsstring) : jsstring := trimEnd (trimStart s).

(** [String(n)] for an integer-valued number: its decimal numeral. *)
Definition String_of_number (n : Z) : jsstring :=
  map N_of_ascii (list_ascii_of_string (NilEmpty.string_of_int (Z.to_int n))).

(** *** Regular expressions

    The fragment of the pattern language that the intent patterns use:
    literal text, sequence, alternation, the optional group [( )?], the
    word boundary and [.*]. *)
Inductive regex : Type :=
| Lit (c : N)
| Eps
| Seq (a b : regex)
| Alt (a b : regex)
| Opt (a : regex)
| WordBoundary
| DotStar.

(** The pattern for a literal text. *)
Definition text (s : string) : regex :=
  fold_right (fun c r => Seq (Lit c) r) Eps (utf16 s).

(** [\w] without the unicode and ignore-case flags. *)
Definition isWordChar (c : N) : bool :=
  (((97 <=? c) && (c <=? 122)) || ((65 <=? c) && (c <=? 90))
   || ((48 <=? c) && (c <=? 57)) || (c =? 95))%N.

Definition isWordAt (o : option N) : bool :=
  match o with Some c => isWordChar c | None => false end.

(** [.*]: the continuation is tried after every run of code units that
    are not line terminators, the longest run first. *)
Fixpoint dotStar (prev : option N) (s : jsstring)
    (k : option N -> jsstring -> bool) : bool :=
  match s with
  | c :: s' =>
      (negb (isLineTerminator c) && dotStar (Some c) s' k) || k prev s
  | [] => k prev s
  end.

(** Backtracking matcher. [prev] is the code unit before the current
    position (none at the start of the input), [s] is the rest of the
    input, and [k] is what has to match afterwards. *)
Fixpoint matchAt (r : regex) (prev : option N) (s : jsstring)
    (k : option N -> jsstring -> bool) : bool :=
  match r with
  | Lit c =>
      match s with
      | c' :: s' => (c =? c')%N && k (Some c') s'
      | [] => false
      end
  | Eps => k prev s
  | Seq a b => matchAt a prev s (fun p s' => matchAt b p s' k)
  | Alt a b => matchAt a prev s k || matchAt b prev s k
  | Opt a => matchAt a prev s k || k prev s
  | WordBoundary => xorb (isWordAt prev) (isWordAt (hd_error s)) && k prev s
  | DotStar => dotStar prev s k
  end.

Fixpoint searchFrom (r : regex) (prev : option N) (s : jsstring) : bool :=
  matchAt r prev s (fun _ _ => true)
  || match s with
     | c :: s' => searchFrom r (Some c) s'
     | [] => false
     end.

(** [re.test(s)] for a pattern without flags: a match at some position. *)
Definition test (r : regex) (s : jsstring) : bool := searchFrom r None s.

End JS.

(* ===================================================================== *)
(** ** Handlers as state transformers *)
(* ===================================================================== *)

(** An event handler reads and updates the component's state. React's
    functional updates of one handler are applied in the order they were
    queued, which is the order of the binds. *)
Module StateM.

Definition M (S A : Type) : Type := S -> A * S.

Definition ret {S A} (a : A) : M S A := fun s => (a, s).

Definition bind {S A B} (c : M S A) (k : A -> M S B) : M S B :=
  fun s => let (a, s') := c s in k a s'.

Definition get {S} : M S S := fun s => (s, s).

Definition modify {S} (f : S -> S) : M S unit := fun s => (tt, f s).

Definition exec {S A} (c : M S A) (s : S) : S := snd (c s).

Definition eval {S A} (c : M S A) (s : S) : A := fst (c s).

Declare Scope handler_scope.
Delimit Scope handler_scope with handler.

Notation "x <- c ;; k" := (bind c (fun x => k))
  (at level 61, c at next level, right associativity) : handler_scope.
Notation "c ;; k" := (bind c (fun _ => k))
  (at level 61, right associativity) : handler_scope.

End StateM.

(* ===================================================================== *)
(** ** The application shell with the simulated voice command *)
(* ===================================================================== *)

Module Voice.
Import JS StateM.
Local Open Scope handler_scope.

Inductive MetaValue : Type :=
| MStr (s : jsstring)
| MNum (n : Z).

Record LogEvent : Type := mkLogEvent {
  type : string;
  t : Z;
  meta : option (list (string * MetaValue))
}.

Record ScheduledPost : Type := mkPost {
  id : jsstring;
  createdAt : Z;
  title : jsstring
}.

(** The state of [App] that the voice command touches, and the number of
    times [Date.now()] has been read so far. *)
Record App : Type := mkApp {
  events : list LogEvent;
  feedback : jsstring;
  voiceText : jsstring;
  scheduledPosts : list ScheduledPost;
  clockReads : nat
}.

Definition initialApp : App :=
  {| events := []; feedback := utf16 "Bienvenido a PromoStudio";
     voiceText := []; scheduledPosts := []; clockReads := 0 |}.

Definition setEvents (f : list LogEvent -> list LogEvent) : M App unit :=
  modify (fun s => {| events := f (events s); feedback := feedback s;
                      voiceText := voiceText s;
                      scheduledPosts := scheduledPosts s;
                      clockReads := clockReads s |}).

Definition setFeedback (msg : jsstring) : M App unit :=
  modify (fun s => {| events := events s; feedback := msg;
                      voiceText := voiceText s;
                      scheduledPosts := scheduledPosts s;
                      clockReads := clockReads s |}).

Definition setVoiceText (v : jsstring) : M App unit :=
  modify (fun s => {| events := events s; feedback := feedback s;
                      voiceText := v;
                      scheduledPosts := scheduledPosts s;
                      clockReads := clockReads s |}).

Definition setScheduledPosts
    (f : list ScheduledPost -> list ScheduledPost) : M App unit :=
  modify (fun s => {| events := events s; feedback := feedback s;
                      voiceText := voiceText s;
                      scheduledPosts := f (scheduledPosts s);
                      clockReads := clockReads s |}).

Definition normalize (s : jsstring) : jsstring :=
  trim (stripCombiningMarks (normalizeNFD (toLowerCase s))).

Definition seqs (rs : list regex) : regex := fold_right Seq Eps rs.

Definition patterns : list regex :=
  [ seqs [WordBoundary; text "program"; Alt (text "ar") (text "a");
          WordBoundary; DotStar; WordBoundary;
          Alt (text "publicacion") (Alt (text "publicacion") (text "post"));
          WordBoundary];
    seqs [WordBoundary; text "programar publicacion"; WordBoundary];
    seqs [WordBoundary; text "programar post"; WordBoundary];
    seqs [WordBoundary; text "schedule "; Opt (text "a "); text "post";
          WordBoundary];
    seqs [WordBoundary; text "crear "; Opt (text "una ");
          text "programacion"; WordBoundary] ].

Definition isScheduleIntent (s : jsstring) : bool :=
  let n := normalize s in
  existsb (fun re => test re n) patterns.

Section Clock.

(** [clock i] is what the [i]-th read of [Date.now()] returns. *)
Variable clock : nat -> Z.

Definition Date_now : M App Z :=
  fun s => (clock (clockReads s),
            {| events := events s; feedback := feedback s;
               voiceText := voiceText s;
               scheduledPosts := scheduledPosts s;
               clockReads := S (clockReads s) |}).

Definition log (type : string) (meta : option (list (string * MetaValue)))
    : M App unit :=
  now <- Date_now ;;
  let e := {| type := type; t := now; meta := meta |} in
  setEvents (fun prev => prev ++ [e]).

Definition handleFeedback (msg : jsstring) (type : string)
    (meta : option (list (string * MetaValue))) : M App unit :=
  setFeedback msg ;;
  log type meta.

Definition onVoiceSubmit : M App unit :=
  s <- get ;;
  log "voice_submit" (Some [("value"%string, MStr (voiceText s))]) ;;
  let ok := isScheduleIntent (voiceText s) in
  if ok then
    now <- Date_now ;;
    let id := String_of_number now in
    created <- Date_now ;;
    let post := {| id := id; createdAt := created;
                   title := utf16 "Publicación programada" |} in
    setScheduledPosts (fun prev => post :: prev) ;;
    log "post_scheduled"
        (Some [("id"%string, MStr (Voice.id post));
               ("title"%string, MStr (title post))]) ;;
    handleFeedback (utf16 "Publicación programada") "post_scheduled"
        (Some [("id"%string, MStr (Voice.id post))])
  else
    handleFeedback (utf16 "Comando no reconocido") "voice_match_false" None.

(** The user types [v] in the command box and presses the button. *)
Definition submitCommand (v : jsstring) : M App unit :=
  setVoiceText v ;;
  onVoiceSubmit.

End Clock.

(** Example run: the same command twice while the clock stays within one
    millisecond. *)
Definition two_commands_in_one_millisecond : App :=
  exec (submitCommand (fun _ => 1000) (utf16 "schedule a post"))
    (exec (submitCommand (fun _ => 1000) (utf16 "schedule a post"))
       initialApp).

(** The id of the post at the front of the list, if there is one. *)
Definition newestId (s : App) : option jsstring :=
  option_map id (hd_error (scheduledPosts s)).

End Voice.


(* ===================================================================== *)
(** ** The application shell with the manual save form *)
(* ===================================================================== *)

Module Scheduler.
Import JS StateM.
Local Open Scope handler_scope.

(** The time value of a [Date]: [None] is the [NaN] of an invalid date. *)
Definition timeValue : Type := option Z.

Inductive MetaValue : Type :=
| MStr (s : jsstring)
| MNum (n : Z)
| MTime (v : timeValue).

Record LogEvent : Type := mkLogEvent {
  type : string;
  t : Z;
  meta : option (list (string * MetaValue))
}.

Record ScheduledPost : Type := mkPost {
  id : jsstring;
  createdAt : Z;
  title : jsstring;
  description : jsstring;
  scheduledAt : timeValue
}.

(** The state of [App] that the save form touches, and the number of
    times [Date.now()] has been read so far. *)
Record App : Type := mkApp {
  events : list LogEvent;
  feedback : jsstring;
  scheduledPosts : list ScheduledPost;
  manualTitle : jsstring;
  description_input : jsstring;
  scheduledAtLocal : jsstring;
  clockReads : nat
}.

Definition setEvents (f : list LogEvent -> list LogEvent) : M App unit :=
  modify (fun s => {| events := f (events s); feedback := feedback s;
                      scheduledPosts := scheduledPosts s;
                      manualTitle := manualTitle s;
                      description_input := description_input s;
                      scheduledAtLocal := scheduledAtLocal s;
                      clockReads := clockReads s |}).

Definition setFeedback (msg : jsstring) : M App unit :=
  modify (fun s => {| events := events s; feedback := msg;
                      scheduledPosts := scheduledPosts s;
                      manualTitle := manualTitle s;
                      description_input := description_input s;
                      scheduledAtLocal := scheduledAtLocal s;
                      clockReads := clockReads s |}).

Definition setScheduledPosts
    (f : list ScheduledPost -> list ScheduledPost) : M App unit :=
  modify (fun s => {| events := events s; feedback := feedback s;
                      scheduledPosts := f (scheduledPosts s);
                      manualTitle := manualTitle s;
                      description_input := description_input s;
                      scheduledAtLocal := scheduledAtLocal s;
                      clockReads := clockReads s |}).

Definition setManualTitle (v : jsstring) : M App unit :=
  modify (fun s => {| events := events s; feedback := feedback s;
                      scheduledPosts := scheduledPosts s;
                      manualTitle := v;
                      description_input := description_input s;
                      scheduledAtLocal := scheduledAtLocal s;
                      clockReads := clockReads s |}).

Definition setDescription (v : jsstring) : M App unit :=
  modify (fun s => {| events := events s; feedback := feedback s;
                      scheduledPosts := scheduledPosts s;
                      manualTitle := manualTitle s;
                      description_input := v;
                      scheduledAtLocal := scheduledAtLocal s;
                      clockReads := clockReads s |}).

Definition setScheduledAtLocal (v : jsstring) : M App unit :=
  modify (fun s => {| events := events s; feedback := feedback s;
                      scheduledPosts := scheduledPosts s;
                      manualTitle := manualTitle s;
                      description_input := description_input s;
                      scheduledAtLocal := v;
                      clockReads := clockReads s |}).

(** [a || b] on strings: the empty string is the only falsy one. *)
Definition orElse (a b : jsstring) : jsstring :=
  match a with [] => b | _ => a end.

Section Platform.

(** [clock i] is what the [i]-th read of [Date.now()] returns. *)
Variable clock : nat -> Z.

(** [Date_getTime v] is [new Date(v).getTime()] for the text [v] of the
    date-and-time field, read as local wall-clock time by the browser. *)
Variable Date_getTime : jsstring -> timeValue.

(** The form as it is first shown; [local0] is the text of the current
    local time that the browser computes for the date-and-time field. *)
Definition initialApp (local0 : jsstring) : App :=
  {| events := []; feedback := utf16 "Bienvenido a PromoStudio";
     scheduledPosts := [];
     manualTitle := utf16 "Publicación programada";
     description_input := []; scheduledAtLocal := local0;
     clockReads := 0 |}.

Definition Date_now : M App Z :=
  fun s => (clock (clockReads s),
            {| events := events s; feedback := feedback s;
               scheduledPosts := scheduledPosts s;
               manualTitle := manualTitle s;
               description_input := description_input s;
               scheduledAtLocal := scheduledAtLocal s;
               clockReads := S (clockReads s) |}).

Definition log (type : string) (meta : option (list (string * MetaValue)))
    : M App unit :=
  now <- Date_now ;;
  let e := {| type := type; t := now; meta := meta |} in
  setEvents (fun prev => prev ++ [e]).

Definition handleFeedback (msg : jsstring) (type : string)
    (meta : option (list (string * MetaValue))) : M App unit :=
  setFeedback msg ;;
  log type meta.

Definition saveScheduledPost : M App unit :=
  s <- get ;;
  now <- Date_now ;;
  let id := String_of_number now in
  let title :=
    orElse (trim (manualTitle s)) (utf16 "Publicación programada") in
  let desc := trim (description_input s) in
  let scheduledAtMs := Date_getTime (scheduledAtLocal s) in
  created <- Date_now ;;
  let post := {| id := id; createdAt := created; title := title;
                 description := desc; scheduledAt := scheduledAtMs |} in
  setScheduledPosts (fun prev => post :: prev) ;;
  log "post_scheduled"
      (Some [("id"%string, MStr (Scheduler.id post));
             ("title"%string, MStr (Scheduler.title post));
             ("scheduledAt"%string, MTime scheduledAtMs)]) ;;
  handleFeedback (utf16 "Publicación guardada y programada") "post_scheduled"
      (Some [("id"%string, MStr (Scheduler.id post));
             ("scheduledAt"%string, MTime scheduledAtMs)]).

(** The user fills in the three fields and presses the save button. *)
Definition save (titleText descriptionText whenText : jsstring) : M App unit :=
  setManualTitle titleText ;;
  setDescription descriptionText ;;
  setScheduledAtLocal whenText ;;
  saveScheduledPost.

End Platform.

(** Example platform: a clock that stays within one millisecond, and a
    date field that always reads as noon of 1 January 2030, UTC. *)
Definition frozen_clock : nat -> Z := fun _ => 1000.

Definition noon : jsstring -> timeValue := fun _ => Some 1893499200000.

(** Two saves, with different titles, within that millisecond. *)
Definition two_saves_in_one_millisecond : App :=
  exec (save frozen_clock noon (utf16 "b") [] (utf16 "2030-01-01T12:00"))
    (exec (save frozen_clock noon (utf16 "a") [] (utf16 "2030-01-01T12:00"))
       (initialApp [])).

(** The id of the post at the front of the list, if there is one. *)
Definition newestId (s : App) : option jsstring :=
  option_map id (hd_error (scheduledPosts s)).

(** A session: the form is filled in and saved once for each entry. *)
Definition session (clock : nat -> Z) (Date_getTime : jsstring -> timeValue)
    (forms : list (jsstring * jsstring * jsstring)) (s : App) : App :=
  fold_left
    (fun acc form =>
       exec (save clock Date_getTime
               (fst (fst form)) (snd (fst form)) (snd form)) acc)
    forms s.

End Scheduler.


(* ===================================================================== *)
(** ** The test-mode task tracker *)
(* ===================================================================== *)

Module TestMode.
Import JS.

(** The panel reads the type and the time of an event, never its [meta]. *)
Record LogEvent : Type := mkLogEvent {
  type : string;
  t : Z
}.

Inductive TaskKey : Type := photo_edit | sound | voice | three.

Record TaskConfig : Type := mkTaskConfig {
  key : TaskKey;
  label : jsstring;
  successEvents : list string
}.

Definition TASKS : list TaskConfig :=
  [ {| key := photo_edit; label := utf16 "Editar foto (aplicar recorte)";
       successEvents := ["photo_preview_ready"; "photo_exported"]%string |};
    {| key := sound; label := utf16 "Reproducir sonido";
       successEvents := ["sound_played"]%string |};
    {| key := voice;
       label := utf16 "Comando correcto (programar publicación)";
       successEvents := ["post_scheduled"; "voice_match_true"]%string |};
    {| key := three; label := utf16 "Cargar intro 3D";
       successEvents := ["three_visible"]%string |} ].

Record TaskState : Type := mkTaskState {
  running : bool;
  startT : option Z;
  endT : option Z
}.

(** [Record<TaskKey, TaskState>]: an object with exactly the four keys. *)
Record TaskMap : Type := mkTaskMap {
  at_photo_edit : TaskState;
  at_sound : TaskState;
  at_voice : TaskState;
  at_three : TaskState
}.

(** [m[k]] *)
Definition get (k : TaskKey) (m : TaskMap) : TaskState :=
  match k with
  | photo_edit => at_photo_edit m
  | sound => at_sound m
  | voice => at_voice m
  | three => at_three m
  end.

(** [{ ...m, [k]: v }] *)
Definition set (k : TaskKey) (v : TaskState) (m : TaskMap) : TaskMap :=
  match k with
  | photo_edit => {| at_photo_edit := v; at_sound := at_sound m;
                     at_voice := at_voice m; at_three := at_three m |}
  | sound => {| at_photo_edit := at_photo_edit m; at_sound := v;
                at_voice := at_voice m; at_three := at_three m |}
  | voice => {| at_photo_edit := at_photo_edit m; at_sound := at_sound m;
                at_voice := v; at_three := at_three m |}
  | three => {| at_photo_edit := at_photo_edit m; at_sound := at_sound m;
                at_voice := at_voice m; at_three := v |}
  end.

Definition idle : TaskState :=
  {| running := false; startT := None; endT := None |}.

Definition initialTaskState : TaskMap :=
  {| at_photo_edit := idle; at_sound := idle;
     at_voice := idle; at_three := idle |}.

(** [x == null] *)
Definition isNull {A} (x : option A) : bool :=
  match x with None => true | Some _ => false end.

(** [successEvents.includes(ty)] *)
Definition includes (l : list string) (ty : string) : bool :=
  existsb (String.eqb ty) l.

(** [events[events.length - 1]], when the log is not empty. *)
Definition lastOf (events : list LogEvent) : option LogEvent :=
  match rev events with
  | [] => None
  | e :: _ => Some e
  end.

(** The component: the [events] it is given, its [taskState] and the
    [lastEventRef] that the effect writes. *)
Record Panel : Type := mkPanel {
  events : list LogEvent;
  taskState : TaskMap;
  lastEventRef : option LogEvent
}.

Definition mount (events : list LogEvent) : Panel :=
  {| events := events; taskState := initialTaskState; lastEventRef := None |}.

(** What one task contributes to a run of the effect: nothing, or the
    functional update that completes it. [st] is the state of the render
    that the effect closes over, [prev] the state the update is applied to. *)
Definition completion (last : LogEvent) (taskState : TaskMap)
    (task : TaskConfig) : list (TaskMap -> TaskMap) :=
  let st := get (key task) taskState in
  if negb (running st) || isNull (startT st) || negb (isNull (endT st))
  then []
  else if includes (successEvents task) (type last) then
    [ fun prev => set (key task)
        {| running := false; startT := startT st; endT := Some (t last) |}
        prev ]
  else [].

(** The updates queued by one run of the effect. *)
Definition effectUpdates (events : list LogEvent) (taskState : TaskMap)
    : list (TaskMap -> TaskMap) :=
  match lastOf events with
  | None => []
  | Some last => flat_map (completion last taskState) TASKS
  end.

Definition applyUpdates (us : list (TaskMap -> TaskMap)) (m : TaskMap)
    : TaskMap :=
  fold_left (fun acc u => u acc) us m.

(** One run of the effect, with its queued updates applied. *)
Definition runEffect (p : Panel) : Panel :=
  {| events := events p;
     taskState := applyUpdates (effectUpdates (events p) (taskState p))
                               (taskState p);
     lastEventRef := match lastOf (events p) with
                     | None => lastEventRef p
                     | Some last => Some last
                     end |}.

(** The effect depends on [events] and on [taskState]: a run that queues
    an update changes [taskState], and the component renders and runs the
    effect again; a run that queues none ends the cycle. *)
Fixpoint flushEffects (fuel : nat) (p : Panel) : Panel :=
  match fuel with
  | O => p
  | S fuel' =>
      match effectUpdates (events p) (taskState p) with
      | [] => runEffect p
      | _ :: _ => flushEffects fuel' (runEffect p)
      end
  end.

(** Every run that queues an update completes at least one more task, so
    one run more than there are tasks always ends the cycle (see
    [flushEffects_settles] and [commit_quiescent]). *)
Definition commit (p : Panel) : Panel :=
  flushEffects (S (List.length TASKS)) p.

Definition withEvents (events : list LogEvent) (p : Panel) : Panel :=
  {| events := events; taskState := taskState p;
     lastEventRef := lastEventRef p |}.

Definition setTaskState (f : TaskMap -> TaskMap) (p : Panel) : Panel :=
  {| events := events p; taskState := f (taskState p);
     lastEventRef := lastEventRef p |}.

(** [startTask(key)], where [now] is the value of [nowFn()]. *)
Definition startTask (key : TaskKey) (now : Z) (p : Panel) : Panel :=
  setTaskState (fun prev =>
    set key {| running := true; startT := Some now; endT := None |} prev) p.

(** [resetTask(key)] *)
Definition resetTask (key : TaskKey) (p : Panel) : Panel :=
  setTaskState (fun prev =>
    set key {| running := false; startT := None; endT := None |} prev) p.

(** The parent appends [e] to the log and the panel renders with it. *)
Definition receiveEvent (e : LogEvent) (p : Panel) : Panel :=
  commit (withEvents (events p ++ [e]) p).

(** The parent appends several events in one handler, and the panel
    renders once, with all of them. *)
Definition receiveEvents (batch : list LogEvent) (p : Panel) : Panel :=
  match batch with
  | [] => p
  | _ :: _ => commit (withEvents (events p ++ batch) p)
  end.

(** The [disabled] attribute of the start button of a task. *)
Definition startDisabled (key : TaskKey) (p : Panel) : bool :=
  running (get key (taskState p)).

(** A click on the start button: a disabled button dispatches no click. *)
Definition clickStart (key : TaskKey) (now : Z) (p : Panel) : Panel :=
  if startDisabled key p then p else commit (startTask key now p).

(** A click on the reset button, which is never disabled. *)
Definition clickReset (key : TaskKey) (p : Panel) : Panel :=
  commit (resetTask key p).

(** Truthiness of an optional number: [null], [undefined] and [0] are falsy. *)
Definition truthy (x : option Z) : bool :=
  match x with
  | Some v => negb (v =? 0)
  | None => false
  end.

(** The row of a task: the elapsed milliseconds and the status label. *)
Definition elapsedMs (now : Z) (st : TaskState) : Z :=
  match startT st with
  | None => 0
  | Some s => match endT st with Some e => e | None => now end - s
  end.

Definition status (st : TaskState) : string :=
  if truthy (endT st) then "Completada"%string
  else if running st then "En curso"%string
  else "Pendiente"%string.

(** The three states of a task, as the three object shapes that the
    component ever stores: the initial and reset shape, the shape written
    by [startTask], and the shape written by the completing update. *)
Inductive Phase : Type := Pending | Running | Completed.

Definition phase (st : TaskState) : option Phase :=
  match running st, startT st, endT st with
  | false, None, None => Some Pending
  | true, Some _, None => Some Running
  | false, Some _, Some _ => Some Completed
  | _, _, _ => None
  end.

(** Example runs. *)
Definition sound_played_at_5 : LogEvent :=
  {| type := "sound_played"; t := 5 |}.

Definition sound_played_at_20 : LogEvent :=
  {| type := "sound_played"; t := 20 |}.

Definition started_sound : Panel := clickStart sound 10 (mount []).

Definition played_after_start : Panel :=
  receiveEvent sound_played_at_20 started_sound.

Definition played_before_start : Panel :=
  receiveEvent sound_played_at_5 (mount []).

(** Every task of the map is in one of the three states. *)
Definition shaped (m : TaskMap) : Prop :=
  forall k, phase (get k m) <> None.

(** Whether the effect completes a task in state [st] on seeing [last],
    and the state it then stores; used to state what a run does. *)
Definition completes (last : LogEvent) (task : TaskConfig) (st : TaskState)
    : bool :=
  running st && negb (isNull (startT st)) && isNull (endT st)
  && includes (successEvents task) (type last).

Definition completed (last : LogEvent) (st : TaskState) : TaskState :=
  {| running := false; startT := startT st; endT := Some (t last) |}.

(** The atomic changes of a mounted panel: the parent appends an event,
    a handler updates the task state, the effect runs. *)
Inductive step : Panel -> Panel -> Prop :=
| step_append (e : LogEvent) (p : Panel) :
    step p (withEvents (events p ++ [e]) p)
| step_start (k : TaskKey) (now : Z) (p : Panel) :
    step p (startTask k now p)
| step_reset (k : TaskKey) (p : Panel) :
    step p (resetTask k p)
| step_effect (p : Panel) :
    step p (runEffect p).

Inductive reachable (events0 : list LogEvent) : Panel -> Prop :=
| reach_mount : reachable events0 (mount events0)
| reach_step (p q : Panel) :
    reachable events0 p -> step p q -> reachable events0 q.

End TestMode.


(* ===================================================================== *)
(** ** The photo editor *)
(* ===================================================================== *)

Module PhotoEdit.
Import JS.

Record CropArea : Type := mkCropArea {
  x : Z;
  y : Z;
  width : Z;
  height : Z
}.

Record Filter : Type := mkFilter {
  key : string;
  label : jsstring;
  css : string
}.

Definition FILTERS : list Filter :=
  [ {| key := "none"; label := utf16 "Sin filtro"; css := "none" |};
    {| key := "grayscale"; label := utf16 "Blanco y negro";
       css := "grayscale(1)" |};
    {| key := "sepia"; label := utf16 "Sepia"; css := "sepia(0.8)" |};
    {| key := "contrast"; label := utf16 "Contraste";
       css := "contrast(1.4)" |};
    {| key := "bright"; label := utf16 "Brillo"; css := "brightness(1.2)" |} ].

(** [FILTERS.find(f => f.key === filter)?.css ?? 'none'] *)
Definition filterCss (filter : string) : string :=
  match find (fun f => String.eqb (key f) filter) FILTERS with
  | Some f => css f
  | None => "none"%string
  end.

(** *** The editor state *)

Record EditorState : Type := mkEditorState {
  imageSrc : option jsstring;
  crop : Q * Q;
  zoom : Q;
  rotation : Q;
  croppedAreaPixels : option CropArea;
  filter : string;
  previewUrl : option jsstring
}.

Definition initialState : EditorState :=
  {| imageSrc := None; crop := (0, 0)%Q; zoom := 1%Q; rotation := 0%Q;
     croppedAreaPixels := None; filter := "none"; previewUrl := None |}.

Definition setImageSrc (v : option jsstring) (s : EditorState) : EditorState :=
  {| imageSrc := v; crop := crop s; zoom := zoom s; rotation := rotation s;
     croppedAreaPixels := croppedAreaPixels s; filter := filter s;
     previewUrl := previewUrl s |}.

Definition setCrop (v : Q * Q) (s : EditorState) : EditorState :=
  {| imageSrc := imageSrc s; crop := v; zoom := zoom s;
     rotation := rotation s; croppedAreaPixels := croppedAreaPixels s;
     filter := filter s; previewUrl := previewUrl s |}.

Definition setZoom (v : Q) (s : EditorState) : EditorState :=
  {| imageSrc := imageSrc s; crop := crop s; zoom := v;
     rotation := rotation s; croppedAreaPixels := croppedAreaPixels s;
     filter := filter s; previewUrl := previewUrl s |}.

Definition setRotation (v : Q) (s : EditorState) : EditorState :=
  {| imageSrc := imageSrc s; crop := crop s; zoom := zoom s;
     rotation := v; croppedAreaPixels := croppedAreaPixels s;
     filter := filter s; previewUrl := previewUrl s |}.

Definition setCroppedAreaPixels (v : option CropArea) (s : EditorState)
    : EditorState :=
  {| imageSrc := imageSrc s; crop := crop s; zoom := zoom s;
     rotation := rotation s; croppedAreaPixels := v;
     filter := filter s; previewUrl := previewUrl s |}.

Definition setFilter (v : string) (s : EditorState) : EditorState :=
  {| imageSrc := imageSrc s; crop := crop s; zoom := zoom s;
     rotation := rotation s; croppedAreaPixels := croppedAreaPixels s;
     filter := v; previewUrl := previewUrl s |}.

Definition setPreviewUrl (v : option jsstring) (s : EditorState)
    : EditorState :=
  {| imageSrc := imageSrc s; crop := crop s; zoom := zoom s;
     rotation := rotation s; croppedAreaPixels := croppedAreaPixels s;
     filter := filter s; previewUrl := v |}.

Inductive MetaValue : Type :=
| MStr (s : jsstring)
| MNum (n : Z)
| MArea (a : CropArea).

(** The calls that a handler makes on the two callbacks of its props. *)
Inductive Call : Type :=
| onFeedback (msg : jsstring) (type : string)
    (meta : option (list (string * MetaValue)))
| log (type : string) (meta : option (list (string * MetaValue))).

Record File : Type := mkFile {
  name : jsstring;
  size : Z;
  dataURL : jsstring
}.

(** [reader.onload] of [onSelectFile]; [dataURL file] is [reader.result]. *)
Definition reader_onload (file : File) (s : EditorState)
    : EditorState * list Call :=
  let s := setImageSrc (Some (dataURL file)) s in
  let s := setCrop (0, 0)%Q s in
  let s := setZoom 1%Q s in
  let s := setRotation 0%Q s in
  let s := setFilter "none" s in
  (s, [onFeedback (utf16 "Imagen cargada") "photo_upload"
         (Some [("name"%string, MStr (name file));
                ("size"%string, MNum (size file))])]).

(** [onSelectFile], with [file] the first of the selected files if any,
    taken to the completion of the read. *)
Definition onSelectFile (file : option File) (s : EditorState)
    : EditorState * list Call :=
  match file with
  | None => (s, [])
  | Some f => reader_onload f s
  end.

Definition onCropComplete (_croppedArea pixels : CropArea) (s : EditorState)
    : EditorState * list Call :=
  (setCroppedAreaPixels (Some pixels) s,
   [log "crop_change" (Some [("pixels"%string, MArea pixels)])]).

(** Example run: an upload, a committed crop area and a preview. *)
Definition first_file : File :=
  {| name := utf16 "test1.jpg"; size := 5;
     dataURL := utf16 "data:image/jpeg;base64,dGVzdDE=" |}.

Definition second_file : File :=
  {| name := utf16 "test2.jpg"; size := 5;
     dataURL := utf16 "data:image/jpeg;base64,dGVzdDI=" |}.

Definition area100 : CropArea :=
  {| x := 0; y := 0; width := 100; height := 100 |}.


Definition edited_state : EditorState :=
  setPreviewUrl (Some (utf16 "blob:preview-1"))
    (fst (onCropComplete area100 area100
       (setFilter "sepia" (setRotation 45%Q
          (fst (onSelectFile (Some first_file) initialState)))))).

(** *** The drawing surface *)

Record HTMLImageElement : Type := mkImage {
  src : jsstring;
  imageWidth : Z;
  imageHeight : Z
}.

(** The commands received by the 2D context of a canvas. An angle is kept
    as the number of degrees [d] of the call [rotate((d * Math.PI) / 180)]. *)
Inductive ContextOp : Type :=
| SetFilter (css : string)
| Translate (tx ty : Q)
| RotateDeg (d : Q)
| DrawImage (image : HTMLImageElement) (sx sy sw sh dx dy dw dh : Z).

Record Canvas : Type := mkCanvas {
  canvasWidth : Z;
  canvasHeight : Z;
  ops : list ContextOp
}.

(** A canvas element as [document.createElement('canvas')] returns it. *)
Definition blankCanvas : Canvas :=
  {| canvasWidth := 300; canvasHeight := 150; ops := [] |}.

Record Blob : Type := mkBlob {
  mime : string;
  pixelWidth : Z;
  pixelHeight : Z;
  bytes : list N
}.

(** The elements created so far; an element is referred to by its index. *)
Definition Document : Type := list Canvas.

Inductive Error : Type :=
| ImageLoadError
| CanvasContextNotAvailable.

Inductive Result (A : Type) : Type :=
| Ok (a : A)
| Thrown (e : Error).
Arguments Ok {A} a.
Arguments Thrown {A} e.

(** Code that works on the document and may throw. *)
Definition DOM (A : Type) : Type := Document -> Result A * Document.

Definition ret {A} (a : A) : DOM A := fun d => (Ok a, d).

Definition bind {A B} (c : DOM A) (k : A -> DOM B) : DOM B :=
  fun d =>
    match c d with
    | (Ok a, d') => k a d'
    | (Thrown e, d') => (Thrown e, d')
    end.

Definition throw {A} (e : Error) : DOM A := fun d => (Thrown e, d).

Declare Scope dom_scope.
Delimit Scope dom_scope with dom.
Notation "x <- c ;; k" := (bind c (fun x => k))
  (at level 61, c at next level, right associativity) : dom_scope.
Notation "c ;; k" := (bind c (fun _ => k))
  (at level 61, right associativity) : dom_scope.
Local Open Scope dom_scope.

(** Replace the element at index [i]. *)
Fixpoint update (i : nat) (f : Canvas -> Canvas) (d : Document) : Document :=
  match d, i with
  | [], _ => []
  | c :: d', O => f c :: d'
  | c :: d', S i' => c :: update i' f d'
  end.

Definition createElement_canvas : DOM nat :=
  fun d => (Ok (List.length d), d ++ [blankCanvas]).

Definition readCanvas (r : nat) : DOM Canvas :=
  fun d => (Ok (nth r d blankCanvas), d).

Definition modifyCanvas (r : nat) (f : Canvas -> Canvas) : DOM unit :=
  fun d => (Ok tt, update r f d).

(** The [width] and [height] of a canvas are attributes of type
    [unsigned long] that reflect a content attribute. An integer-valued
    number that is assigned is first converted to the type, modulo 2^32. *)
Definition ToUint32 (v : Z) : Z := v mod 4294967296.

(** A converted value above 2147483647 is then replaced by the default
    of the attribute; [dimension default v] is what the attribute holds
    after [v] has been assigned. *)
Definition dimension (default v : Z) : Z :=
  if ToUint32 v <=? 2147483647 then ToUint32 v else default.

(** Assigning either dimension clears the surface and resets its context;
    the defaults are those of [blankCanvas]. *)
Definition set_width (r : nat) (w : Z) : DOM unit :=
  modifyCanvas r (fun c =>
    {| canvasWidth := dimension 300 w; canvasHeight := canvasHeight c;
       ops := [] |}).

Definition set_height (r : nat) (h : Z) : DOM unit :=
  modifyCanvas r (fun c =>
    {| canvasWidth := canvasWidth c; canvasHeight := dimension 150 h;
       ops := [] |}).

Definition send (r : nat) (op : ContextOp) : DOM unit :=
  modifyCanvas r (fun c =>
    {| canvasWidth := canvasWidth c; canvasHeight := canvasHeight c;
       ops := ops c ++ [op] |}).

Definition half (n : Z) : Q := (inject_Z n / 2)%Q.

(** The canvas that [getCroppedImg] has drawn when it reaches [toBlob];
    used to state what a run leaves in the document. *)
Definition drawnCanvas (image : HTMLImageElement) (cropPixels : CropArea)
    (rotationDeg : Q) (cssFilter : string) : Canvas :=
  {| canvasWidth := dimension 300 (width cropPixels);
     canvasHeight := dimension 150 (height cropPixels);
     ops := [ SetFilter cssFilter;
              Translate (half (dimension 300 (width cropPixels)))
                        (half (dimension 150 (height cropPixels)));
              RotateDeg rotationDeg;
              Translate (- half (dimension 300 (width cropPixels)))
                        (- half (dimension 150 (height cropPixels)));
              DrawImage image (x cropPixels) (y cropPixels)
                (width cropPixels) (height cropPixels)
                0 0 (width cropPixels) (height cropPixels) ] |}.

Section Browser.

(** What the browser decides: whether an image source decodes and to which
    dimensions, whether a 2D context can be had, and the PNG encoding of a
    drawn surface. *)
Variable decodeImage : jsstring -> option (Z * Z).
Variable context2d : bool.
Variable encodePNG : Canvas -> list N.

(** [createImage(url)]: resolved by the load event, rejected by the error
    event. *)
Definition createImage (url : jsstring) : DOM HTMLImageElement :=
  match decodeImage url with
  | Some (w, h) => ret {| src := url; imageWidth := w; imageHeight := h |}
  | None => throw ImageLoadError
  end.

(** [canvas.getContext('2d')], [true] when the context is not [null]. *)
Definition getContext (r : nat) : DOM bool := ret context2d.

(** [canvas.toBlob(cb, 'image/png')]: the callback receives [null] for a
    surface without pixels. *)
Definition toBlob (r : nat) : DOM (option Blob) :=
  c <- readCanvas r ;;
  if (0 <? canvasWidth c) && (0 <? canvasHeight c) then
    ret (Some {| mime := "image/png"; pixelWidth := canvasWidth c;
                 pixelHeight := canvasHeight c; bytes := encodePNG c |})
  else ret None.

Definition getCroppedImg (imageSrcLocal : jsstring) (cropPixels : CropArea)
    (rotationDeg : Q) (cssFilter : string) : DOM (option Blob) :=
  image <- createImage imageSrcLocal ;;
  canvas <- createElement_canvas ;;
  ctx <- getContext canvas ;;
  if negb ctx then throw CanvasContextNotAvailable else
  let safeArea := Z.max (imageWidth image) (imageHeight image) * 2 in
  set_width canvas (width cropPixels) ;;
  set_height canvas (height cropPixels) ;;
  send canvas (SetFilter cssFilter) ;;
  c <- readCanvas canvas ;;
  send canvas (Translate (half (canvasWidth c)) (half (canvasHeight c))) ;;
  send canvas (RotateDeg rotationDeg) ;;
  c <- readCanvas canvas ;;
  send canvas (Translate (- half (canvasWidth c)) (- half (canvasHeight c))) ;;
  send canvas (DrawImage image (x cropPixels) (y cropPixels)
                 (width cropPixels) (height cropPixels)
                 0 0 (width cropPixels) (height cropPixels)) ;;
  toBlob canvas.

End Browser.

End PhotoEdit.


(* ===================================================================== *)
(** ** Runs of the task tracker *)
(* ===================================================================== *)

Module TestModeRuns.
Import TestMode.

(** The panel has rendered and its effect has nothing left to do. *)
Definition quiescent (p : Panel) : Prop :=
  effectUpdates (events p) (taskState p) = [].

(** The events arrive one at a time, the panel rendering after each. *)
Definition receiveAll (es : list LogEvent) (p : Panel) : Panel :=
  fold_left (fun acc e => receiveEvent e acc) es p.

(** Example run: two tasks started, then the sound is played twice. *)
Definition two_started : Panel :=
  clickStart three 12 (clickStart sound 10 (mount [])).

Definition sound_played_at_30 : LogEvent :=
  {| type := "sound_played"; t := 30 |}.

Definition crop_change_at_15 : LogEvent :=
  {| type := "crop_change"; t := 15 |}.

End TestModeRuns.

(* ===================================================================== *)
(** ** The event log: its file name, and sessions of commands *)
(* ===================================================================== *)

Module EventLog.
Import JS StateM.

(** [/[:.]/] *)
Definition isColonOrDot (c : N) : bool := ((c =? 58) || (c =? 46))%N.

(** [iso.replace(/[:.]/g, '').slice(0, 15)], where [iso] is the text that
    [new Date().toISOString()] returns. *)
Definition fileStamp (iso : jsstring) : jsstring :=
  firstn 15 (filter (fun c => negb (isColonOrDot c)) iso).

(** The name that [download] gives to the file of the log. *)
Definition downloadName (iso : jsstring) : jsstring :=
  utf16 "promostudio_log_" ++ fileStamp iso ++ utf16 ".json".

(** How many events of the log have the given type. *)
Definition countType (ty : string) (events : list Voice.LogEvent) : nat :=
  List.length (filter (fun e => String.eqb (Voice.type e) ty) events).

(** How many of the commands are recognized. *)
Definition recognized (commands : list jsstring) : nat :=
  List.length (filter Voice.isScheduleIntent commands).

(** A session: each command is typed and submitted in turn. *)
Definition session (clock : nat -> Z) (commands : list jsstring)
    (s : Voice.App) : Voice.App :=
  fold_left (fun acc v => exec (Voice.submitCommand clock v) acc) commands s.

(** The clock never goes back. *)
Definition monotone (clock : nat -> Z) : Prop :=
  forall i j : nat, (i <= j)%nat -> clock i <= clock j.

(** The times of the log are in order and none is later than the next
    reading of the clock. *)
Definition ordered (clock : nat -> Z) (s : Voice.App) : Prop :=
  StronglySorted Z.le (map Voice.t (Voice.events s))
  /\ Forall (fun x => x <= clock (Voice.clockReads s))
       (map Voice.t (Voice.events s)).

End EventLog.

(* ===================================================================== *)
(** ** The application shell with the test-mode panel switched on *)
(* ===================================================================== *)

Module TestModeApp.
Import JS StateM.

(** The panel is given the log of the application. *)
Definition toPanelEvent (e : Voice.LogEvent) : TestMode.LogEvent :=
  {| TestMode.type := Voice.type e; TestMode.t := Voice.t e |}.

Definition panelEvents (a : Voice.App) : list TestMode.LogEvent :=
  map toPanelEvent (Voice.events a).

(** The application and, while the test-mode box is ticked, the panel. *)
Record Shell : Type := mkShell {
  app : Voice.App;
  panel : option TestMode.Panel
}.

(** Ticking the box mounts the panel with the log as it is, and the
    effect runs; unticking it unmounts the panel, whose state is lost. *)
Definition setTestMode (checked : bool) (sh : Shell) : Shell :=
  {| app := app sh;
     panel := if checked then
                match panel sh with
                | Some p => Some p
                | None => Some (TestMode.commit
                                  (TestMode.mount (panelEvents (app sh))))
                end
              else None |}.

(** A handler of the application runs to its end, and then the shell
    renders once: the panel is given the log, and its effect runs if the
    log has changed. *)
Definition handle (h : M Voice.App unit) (sh : Shell) : Shell :=
  let a' := exec h (app sh) in
  {| app := a';
     panel :=
       match panel sh with
       | None => None
       | Some p =>
           if (List.length (Voice.events a')
               =? List.length (Voice.events (app sh)))%nat
           then Some p
           else Some (TestMode.commit
                        (TestMode.withEvents (panelEvents a') p))
       end |}.

(** A press of the start button of a task of the panel; the panel is
    given no [now], so the time is a reading of [Date.now()]. A disabled
    button dispatches no click, and then the clock is not read. *)
Definition pressStart (clock : nat -> Z) (k : TestMode.TaskKey) (sh : Shell)
    : Shell :=
  match panel sh with
  | None => sh
  | Some p =>
      if TestMode.startDisabled k p then sh
      else
        let (now, a') := Voice.Date_now clock (app sh) in
        {| app := a';
           panel := Some (TestMode.commit (TestMode.startTask k now p)) |}
  end.

(** Example run: a clock that advances at every reading, test mode on
    and the voice task started. *)
Definition ticking : nat -> Z := fun i => 100 + Z.of_nat i.

Definition voice_task_started : Shell :=
  pressStart ticking TestMode.voice
    (setTestMode true {| app := Voice.initialApp; panel := None |}).

End TestModeApp.

(* ===================================================================== *)
(** ** Sessions of the save form *)
(* ===================================================================== *)

Module SchedulerRuns.
Import JS Scheduler.

(** What the user sees of a post: title, description and scheduled time. *)
Definition content (p : ScheduledPost) : jsstring * jsstring * timeValue :=
  (title p, description p, scheduledAt p).

(** What a filled-in form is stored as. *)
Definition stored (Date_getTime : jsstring -> timeValue)
    (form : jsstring * jsstring * jsstring)
    : jsstring * jsstring * timeValue :=
  (orElse (trim (fst (fst form))) (utf16 "Publicación programada"),
   trim (snd (fst form)),
   Date_getTime (snd form)).

(** A post whose title is not empty and whose title and description have
    no white space around them. *)
Definition tidy (p : ScheduledPost) : Prop :=
  title p <> [] /\ trim (title p) = title p
  /\ trim (description p) = description p.

End SchedulerRuns.

(* ===================================================================== *)
(** ** The photo editor: preview and export *)
(* ===================================================================== *)

Module PhotoExport.
Import JS PhotoEdit.

(** What the browser holds for the editor: the elements created, the
    object URLs that have been created and not revoked, each with its
    blob, how many URLs have been created so far, and the files that
    have been offered for download. *)
Record Browser : Type := mkBrowser {
  document : Document;
  liveURLs : list (jsstring * Blob);
  minted : nat;
  downloads : list (jsstring * option Blob)
}.

Definition emptyBrowser : Browser :=
  {| document := []; liveURLs := []; minted := 0; downloads := [] |}.

(** What has gone wrong in a handler: the pipeline has thrown, or
    [URL.createObjectURL] has been given the [null] of a surface without
    pixels. *)
Inductive Failure : Type :=
| Pipeline (e : Error)
| NullBlob.

(** What a button closes over when it is pressed: the values of the
    render in which the press happens. *)
Record Request : Type := mkRequest {
  req_imageSrc : jsstring;
  req_area : CropArea;
  req_rotation : Q;
  req_filterCss : string;
  req_previewUrl : option jsstring
}.

(** The guard [if (!imageSrc || !croppedAreaPixels) return] of both
    handlers: an empty image source is falsy. *)
Definition request (s : EditorState) : option Request :=
  match imageSrc s, croppedAreaPixels s with
  | Some (u :: url), Some area =>
      Some {| req_imageSrc := u :: url; req_area := area;
              req_rotation := rotation s;
              req_filterCss := filterCss (filter s);
              req_previewUrl := previewUrl s |}
  | _, _ => None
  end.

(** [URL.revokeObjectURL(url)] *)
Definition revokeObjectURL (url : jsstring) (b : Browser) : Browser :=
  {| document := document b;
     liveURLs := List.filter (fun e => negb (str_eqb (fst e) url))
                   (liveURLs b);
     minted := minted b;
     downloads := downloads b |}.

(** A click on an anchor with the given [href] and [download] name. *)
Definition clickDownload (href name : jsstring) (b : Browser) : Browser :=
  {| document := document b;
     liveURLs := liveURLs b;
     minted := minted b;
     downloads :=
       downloads b ++
       [(name,
         option_map snd
           (List.find (fun e => str_eqb (fst e) href) (liveURLs b)))] |}.

Definition withDocument (d : Document) (b : Browser) : Browser :=
  {| document := d; liveURLs := liveURLs b; minted := minted b;
     downloads := downloads b |}.

Section Platform.

Variable decodeImage : jsstring -> option (Z * Z).
Variable context2d : bool.
Variable encodePNG : Canvas -> list N.

(** [blobURL n] is the URL that the [n]-th call of [URL.createObjectURL]
    returns, and [typeErrorText] is the text of the error that the call
    throws when it is given [null]. *)
Variable blobURL : nat -> jsstring.
Variable typeErrorText : jsstring.

(** [URL.createObjectURL(blob)] *)
Definition createObjectURL (blob : Blob) (b : Browser) : jsstring * Browser :=
  (blobURL (minted b),
   {| document := document b;
      liveURLs := (blobURL (minted b), blob) :: liveURLs b;
      minted := S (minted b);
      downloads := downloads b |}).

(** [String(e)] for what the handlers catch. *)
Definition errorText (f : Failure) : jsstring :=
  match f with
  | Pipeline ImageLoadError => utf16 "[object Event]"
  | Pipeline CanvasContextNotAvailable =>
      utf16 "Error: Canvas context not available"
  | NullBlob => typeErrorText
  end.

(** The pipeline succeeds for a request: the image decodes, there is a 2D
    context and the canvas that is given the size of the crop area has
    pixels. *)
Definition succeeds (r : Request) : Prop :=
  decodeImage (req_imageSrc r) <> None /\ context2d = true
  /\ 0 < dimension 300 (width (req_area r))
  /\ 0 < dimension 150 (height (req_area r)).

(** The pipeline fails for a request: the image does not decode, there
    is no 2D context, or that canvas has no pixels, as for an empty crop
    area. *)
Definition fails (r : Request) : Prop :=
  decodeImage (req_imageSrc r) = None \/ context2d = false
  \/ dimension 300 (width (req_area r)) = 0
  \/ dimension 150 (height (req_area r)) = 0.

(** The awaited part of both handlers: the blob, or what is caught. *)
Definition produce (r : Request) (b : Browser) : (Blob + Failure) * Browser :=
  match getCroppedImg decodeImage context2d encodePNG
          (req_imageSrc r) (req_area r) (req_rotation r) (req_filterCss r)
          (document b) with
  | (Ok (Some blob), d) => (inl blob, withDocument d b)
  | (Ok None, d) => (inr NullBlob, withDocument d b)
  | (Thrown e, d) => (inr (Pipeline e), withDocument d b)
  end.

(** The rest of [onApplyCropPreview] once the pipeline has settled, for
    the press that closed over [r]; [s] is the state by then. *)
Definition finishPreview (r : Request) (s : EditorState) (b : Browser)
    : (EditorState * list Call) * Browser :=
  match produce r b with
  | (inl blob, b1) =>
      let (url, b2) := createObjectURL blob b1 in
      let b3 := match req_previewUrl r with
                | Some (u :: old) => revokeObjectURL (u :: old) b2
                | _ => b2
                end in
      ((setPreviewUrl (Some url) s,
        [onFeedback (utf16 "Vista previa generada") "photo_preview_ready"
           None]),
       b3)
  | (inr f, b1) =>
      ((s, [onFeedback (utf16 "Error al generar vista previa")
              "photo_preview_error"
              (Some [("error"%string, MStr (errorText f))])]),
       b1)
  end.

(** The rest of [onExport] once the pipeline has settled. *)
Definition finishExport (r : Request) (s : EditorState) (b : Browser)
    : (EditorState * list Call) * Browser :=
  match produce r b with
  | (inl blob, b1) =>
      let (url, b2) := createObjectURL blob b1 in
      let b3 := clickDownload url (utf16 "mediaplay_edited.png") b2 in
      let b4 := revokeObjectURL url b3 in
      ((s, [onFeedback (utf16 "Edición exportada") "photo_exported" None]),
       b4)
  | (inr f, b1) =>
      ((s, [onFeedback (utf16 "Error al exportar") "photo_export_error"
              (Some [("error"%string, MStr (errorText f))])]),
       b1)
  end.

(** A press of the preview button that settles before anything else
    happens. *)
Definition onApplyCropPreview (s : EditorState) (b : Browser)
    : (EditorState * list Call) * Browser :=
  match request s with
  | None => ((s, []), b)
  | Some r => finishPreview r s b
  end.

(** A press of the export button that settles before anything else
    happens. *)
Definition onExport (s : EditorState) (b : Browser)
    : (EditorState * list Call) * Browser :=
  match request s with
  | None => ((s, []), b)
  | Some r => finishExport r s b
  end.

(** What the user does with the editor, one thing after the other. *)
Inductive Action : Type :=
| Upload (file : File)
| CommitCrop (pixels : CropArea)
| Rotate (degrees : Q)
| Zoom (factor : Q)
| ChooseFilter (key : string)
| Preview
| Export.

Definition act (a : Action) (sb : EditorState * Browser)
    : EditorState * Browser :=
  let (s, b) := sb in
  match a with
  | Upload file => (fst (onSelectFile (Some file) s), b)
  | CommitCrop pixels => (fst (onCropComplete pixels pixels s), b)
  | Rotate degrees => (setRotation degrees s, b)
  | Zoom factor => (setZoom factor s, b)
  | ChooseFilter key => (setFilter key s, b)
  | Preview => let (sc, b') := onApplyCropPreview s b in (fst sc, b')
  | Export => let (sc, b') := onExport s b in (fst sc, b')
  end.

Definition actAll (actions : list Action) (sb : EditorState * Browser)
    : EditorState * Browser :=
  fold_left (fun acc a => act a acc) actions sb.

(** At most one object URL is live, and it is the preview that is shown. *)
Definition previewOnly (sb : EditorState * Browser) : Prop :=
  match previewUrl (fst sb) with
  | None => liveURLs (snd sb) = []
  | Some u =>
      exists (k : nat) (blob : Blob),
        (k < minted (snd sb))%nat /\ u = blobURL k
        /\ liveURLs (snd sb) = [(u, blob)]
  end.

End Platform.

(** Example platform: every image decodes to 640 by 480, a 2D context is
    always to be had, and the [n]-th object URL is the text "blob:" and
    the numeral of [n]. *)
Definition decodesAll : jsstring -> option (Z * Z) :=
  fun _ => Some (640, 480).

Definition numberedURL : nat -> jsstring :=
  fun n => utf16 "blob:" ++ String_of_number (Z.of_nat n).

(** Example: the editor and the browser after an image has been
    uploaded, a crop area committed and the preview button pressed (see
    [previewed_reached]). *)
Definition previewed_state : EditorState :=
  {| imageSrc := Some (dataURL first_file); crop := (0, 0)%Q; zoom := 1%Q;
     rotation := 0%Q; croppedAreaPixels := Some area100; filter := "none";
     previewUrl := Some (numberedURL 0) |}.

Definition previewed_blob : Blob :=
  {| mime := "image/png"; pixelWidth := 100; pixelHeight := 100;
     bytes := [] |}.

Definition previewed_browser : Browser :=
  {| document :=
       [drawnCanvas
          {| src := dataURL first_file; imageWidth := 640;
             imageHeight := 480 |}
          area100 0%Q "none"];
     liveURLs := [(numberedURL 0, previewed_blob)];
     minted := 1;
     downloads := [] |}.

(** What the buttons close over in that state. *)
Definition previewed_request : Request :=
  {| req_imageSrc := dataURL first_file; req_area := area100;
     req_rotation := 0%Q; req_filterCss := "none";
     req_previewUrl := Some (numberedURL 0) |}.

(** A platform on which no image decodes. *)
Definition decodesNone : jsstring -> option (Z * Z) := fun _ => None.

(** The geometry of the commands of a context: where a point of the
    drawing ends up on the surface. [trig d] is the cosine and the sine of
    an angle of [d] degrees. *)
Definition applyOp (trig : Q -> Q * Q) (op : ContextOp) (p : Q * Q)
    : Q * Q :=
  match op with
  | Translate tx ty => (fst p + tx, snd p + ty)%Q
  | RotateDeg d =>
      let (c, s) := trig d in
      (fst p * c - snd p * s, fst p * s + snd p * c)%Q
  | SetFilter _ => p
  | DrawImage _ _ _ _ _ _ _ _ _ => p
  end.

(** The transformations multiply up on the right, so the command given
    last acts on the point first. *)
Definition onSurface (trig : Q -> Q * Q) (ops : list ContextOp) (p : Q * Q)
    : Q * Q :=
  fold_right (applyOp trig) p ops.

End PhotoExport.

(* ===================================================================== *)
(** ** The 3D preview *)
(* ===================================================================== *)

Module ThreeCanvas.

(** What one run of the effect sets up: the handle of the frame it has
    requested last ([raf]), how many times [animate] has run (each run
    turns the cube by 0.01 and 0.015 and renders the scene), the size
    given to the renderer, and which of the things it has acquired are
    still held: the resize observer, the geometry, the material, the
    renderer and the canvas element in the container. *)
Record Scene : Type := mkScene {
  raf : nat;
  frames : nat;
  size : Z * Z;
  observing : bool;
  geometryLive : bool;
  materialLive : bool;
  rendererLive : bool;
  attached : bool
}.

(** One mounted instance of the component and what the browser holds
    for it: the scenes set up so far, the frames requested and not yet
    run or cancelled (each with the scene whose [animate] it runs), the
    next handle, the two refs and the number of calls of [onReady].
    [cleanupRef] is the scene whose cleanup the ref holds, if it holds
    one. [active] tells that the effect has returned a cleanup that has
    not run yet. *)
Record World : Type := mkWorld {
  scenes : list Scene;
  pending : list (nat * nat);
  nextHandle : nat;
  cleanupRef : option nat;
  readyCalledRef : bool;
  onReadyCalls : nat;
  active : bool
}.

Definition initialWorld : World :=
  {| scenes := []; pending := []; nextHandle := 1; cleanupRef := None;
     readyCalledRef := false; onReadyCalls := 0; active := false |}.

Fixpoint updateScene (i : nat) (f : Scene -> Scene) (l : list Scene)
    : list Scene :=
  match l, i with
  | [], _ => []
  | s :: l', O => f s :: l'
  | s :: l', S i' => s :: updateScene i' f l'
  end.

(** [animate] of scene [i]: turn, render, request the next frame and
    keep its handle in [raf]. *)
Definition animate (i : nat) (w : World) : World :=
  {| scenes :=
       updateScene i
         (fun s => {| raf := nextHandle w; frames := S (frames s);
                      size := size s; observing := observing s;
                      geometryLive := geometryLive s;
                      materialLive := materialLive s;
                      rendererLive := rendererLive s;
                      attached := attached s |})
         (scenes w);
     pending := pending w ++ [(nextHandle w, i)];
     nextHandle := S (nextHandle w);
     cleanupRef := cleanupRef w;
     readyCalledRef := readyCalledRef w;
     onReadyCalls := onReadyCalls w;
     active := active w |}.

(** The effect. Without a container it returns at once, and there is no
    cleanup; otherwise it sets the scene up for a container of the given
    size, starts the loop, calls [onReady] unless it has been called, and
    stores the cleanup. *)
Definition effect (container : option (Z * Z)) (w : World) : World :=
  match container with
  | None => w
  | Some sz =>
      let i := List.length (scenes w) in
      let w1 :=
        {| scenes := scenes w ++
                     [{| raf := 0; frames := 0; size := sz;
                         observing := false; geometryLive := true;
                         materialLive := true; rendererLive := true;
                         attached := true |}];
           pending := pending w;
           nextHandle := nextHandle w;
           cleanupRef := cleanupRef w;
           readyCalledRef := readyCalledRef w;
           onReadyCalls := onReadyCalls w;
           active := active w |} in
      let w2 := animate i w1 in
      {| scenes :=
           updateScene i
             (fun s => {| raf := raf s; frames := frames s; size := size s;
                          observing := true;
                          geometryLive := geometryLive s;
                          materialLive := materialLive s;
                          rendererLive := rendererLive s;
                          attached := attached s |})
             (scenes w2);
         pending := pending w2;
         nextHandle := nextHandle w2;
         cleanupRef := Some i;
         readyCalledRef := true;
         onReadyCalls := if readyCalledRef w2 then onReadyCalls w2
                         else S (onReadyCalls w2);
         active := true |}
  end.

(** [cancelAnimationFrame(h)] *)
Definition cancelAnimationFrame (h : nat) (l : list (nat * nat))
    : list (nat * nat) :=
  filter (fun e => negb (fst e =? h)%nat) l.

(** The cleanup that the effect has returned: it calls what [cleanupRef]
    holds, which cancels the frame of the handle in [raf], disconnects
    the observer, disposes of geometry, material and renderer and takes
    the canvas element out of the container. *)
Definition cleanup (w : World) : World :=
  match cleanupRef w with
  | None =>
      {| scenes := scenes w; pending := pending w;
         nextHandle := nextHandle w; cleanupRef := cleanupRef w;
         readyCalledRef := readyCalledRef w;
         onReadyCalls := onReadyCalls w; active := false |}
  | Some i =>
      {| scenes :=
           updateScene i
             (fun s => {| raf := raf s; frames := frames s; size := size s;
                          observing := false; geometryLive := false;
                          materialLive := false; rendererLive := false;
                          attached := false |})
             (scenes w);
         pending := cancelAnimationFrame
                      (raf (nth i (scenes w)
                              {| raf := 0; frames := 0; size := (0, 0);
                                 observing := false; geometryLive := false;
                                 materialLive := false;
                                 rendererLive := false;
                                 attached := false |}))
                      (pending w);
         nextHandle := nextHandle w;
         cleanupRef := cleanupRef w;
         readyCalledRef := readyCalledRef w;
         onReadyCalls := onReadyCalls w;
         active := false |}
  end.

(** The browser runs the frame of handle [h], if it is still requested. *)
Definition runFrame (h : nat) (w : World) : World :=
  match find (fun e => (fst e =? h)%nat) (pending w) with
  | None => w
  | Some (_, i) =>
      animate i
        {| scenes := scenes w;
           pending := cancelAnimationFrame h (pending w);
           nextHandle := nextHandle w;
           cleanupRef := cleanupRef w;
           readyCalledRef := readyCalledRef w;
           onReadyCalls := onReadyCalls w;
           active := active w |}
  end.

(** The observer reports a new size of the container to the scenes that
    it still observes. *)
Definition onResize (sz : Z * Z) (w : World) : World :=
  {| scenes :=
       map (fun s =>
              if observing s then
                {| raf := raf s; frames := frames s; size := sz;
                   observing := observing s;
                   geometryLive := geometryLive s;
                   materialLive := materialLive s;
                   rendererLive := rendererLive s;
                   attached := attached s |}
              else s)
           (scenes w);
     pending := pending w;
     nextHandle := nextHandle w;
     cleanupRef := cleanupRef w;
     readyCalledRef := readyCalledRef w;
     onReadyCalls := onReadyCalls w;
     active := active w |}.

(** What happens to the instance. React runs the effect ([Show]) and
    later the cleanup that the effect has returned ([Hide]), never two
    effects without the cleanup in between; in development it runs
    effect, cleanup and effect again on the same instance, whose refs
    survive. *)
Inductive Event : Type :=
| Show (container : option (Z * Z))
| Hide
| Frame (h : nat)
| Resized (sz : Z * Z).

Definition happen (e : Event) (w : World) : World :=
  match e with
  | Show container => if active w then w else effect container w
  | Hide => if active w then cleanup w else w
  | Frame h => runFrame h w
  | Resized sz => onResize sz w
  end.

Definition happenAll (es : list Event) (w : World) : World :=
  fold_left (fun acc e => happen e acc) es w.

(** A scene that holds nothing any more. *)
Definition released (s : Scene) : Prop :=
  observing s = false /\ geometryLive s = false /\ materialLive s = false
  /\ rendererLive s = false /\ attached s = false.

(** A scene that holds all it has acquired. *)
Definition held (s : Scene) : Prop :=
  observing s = true /\ geometryLive s = true /\ materialLive s = true
  /\ rendererLive s = true /\ attached s = true.

(** While the component is shown, the last scene is the one in use, it
    holds everything, and the one requested frame is the one whose handle
    it has in [raf]; all other scenes hold nothing. While it is not
    shown, no frame is requested and no scene holds anything. *)
Definition balanced (w : World) : Prop :=
  if active w then
    exists (before : list Scene) (s : Scene),
      scenes w = before ++ [s]
      /\ Forall released before /\ held s
      /\ cleanupRef w = Some (List.length before)
      /\ pending w = [(raf s, List.length before)]
      /\ (raf s < nextHandle w)%nat
  else
    Forall released (scenes w) /\ pending w = [].

End ThreeCanvas.

(* ===================================================================== *)
(** ** Properties of the task tracker *)
(* ===================================================================== *)

Module TestModeFacts.
Import TestMode.

Lemma get_set_same (k : TaskKey) (v : TaskState) (m : TaskMap) :
  get k (set k v m) = v.
Proof. destruct k; reflexivity. Qed.

Lemma get_set_other (k k' : TaskKey) (v : TaskState) (m : TaskMap) :
  k <> k' -> get k (set k' v m) = get k m.
Proof. destruct k, k'; intros H; try reflexivity; contradiction H; reflexivity. Qed.

Lemma task_for_key (k : TaskKey) :
  exists task, In task TASKS /\ key task = k.
Proof.
  pose (d := {| key := k; label := []; successEvents := [] |}).
  destruct k;
    [ exists (nth 0 TASKS d) | exists (nth 1 TASKS d)
    | exists (nth 2 TASKS d) | exists (nth 3 TASKS d) ];
    (split; [unfold TASKS; simpl; tauto | reflexivity]).
Qed.

Lemma lastOf_snoc (events : list LogEvent) (e : LogEvent) :
  lastOf (events ++ [e]) = Some e.
Proof. unfold lastOf. rewrite rev_app_distr. reflexivity. Qed.

(** **** One run of the effect *)

Lemma completion_cases (last : LogEvent) (taskState : TaskMap)
    (task : TaskConfig) :
  completion last taskState task =
  if completes last task (get (key task) taskState)
  then [fun prev => set (key task) (completed last (get (key task) taskState)) prev]
  else [].
Proof.
  unfold completion, completes, completed.
  destruct (running (get (key task) taskState)); simpl; [| reflexivity].
  destruct (startT (get (key task) taskState)); simpl; [| reflexivity].
  destruct (endT (get (key task) taskState)); simpl; [reflexivity |].
  destruct (includes (successEvents task) (type last)); reflexivity.
Qed.

(** The state of each task after a run of the effect that sees [last]. *)
Lemma effect_on_task (events : list LogEvent) (last : LogEvent)
    (taskState : TaskMap) (task : TaskConfig) :
  lastOf events = Some last ->
  In task TASKS ->
  get (key task) (applyUpdates (effectUpdates events taskState) taskState) =
  if completes last task (get (key task) taskState)
  then completed last (get (key task) taskState)
  else get (key task) taskState.
Proof.
  intros Hlast Hin. unfold effectUpdates. rewrite Hlast.
  unfold TASKS in Hin. cbn [In] in Hin.
  unfold TASKS. cbn [flat_map]. rewrite !completion_cases. cbn [key].
  destruct Hin as [<- | [<- | [<- | [<- | []]]]]; cbn [key];
  repeat match goal with
  | |- context [if completes last ?c (get ?k taskState) then _ else _] =>
      destruct (completes last c (get k taskState))
  end; reflexivity.
Qed.

Lemma effect_without_events (events : list LogEvent) (taskState : TaskMap) :
  lastOf events = None ->
  applyUpdates (effectUpdates events taskState) taskState = taskState.
Proof. intros H. unfold effectUpdates. rewrite H. reflexivity. Qed.

Lemma completes_completed (last last' : LogEvent) (task : TaskConfig)
    (st : TaskState) :
  completes last' task (completed last st) = false.
Proof. reflexivity. Qed.

Lemma flat_map_all_nil {A B} (f : A -> list B) (l : list A) :
  (forall a, In a l -> f a = []) -> flat_map f l = [].
Proof.
  induction l as [| a l IH]; intros H; simpl; [reflexivity |].
  rewrite (H a (or_introl eq_refl)), IH; [reflexivity |].
  intros b Hb. apply H. right. exact Hb.
Qed.

(** A run of the effect leaves nothing for the next run to do. *)
Lemma effect_quiescent_after_run (events : list LogEvent)
    (taskState : TaskMap) :
  effectUpdates events
    (applyUpdates (effectUpdates events taskState) taskState) = [].
Proof.
  destruct (lastOf events) as [last |] eqn:Hlast.
  - unfold effectUpdates at 1. rewrite Hlast.
    apply flat_map_all_nil. intros task Hin.
    rewrite completion_cases, (effect_on_task events last _ task Hlast Hin).
    destruct (completes last task (get (key task) taskState)) eqn:Hc.
    + rewrite completes_completed. reflexivity.
    + rewrite Hc. reflexivity.
  - unfold effectUpdates. rewrite Hlast. reflexivity.
Qed.

Lemma runEffect_quiescent (p : Panel) :
  effectUpdates (events (runEffect p)) (taskState (runEffect p)) = [].
Proof. apply effect_quiescent_after_run. Qed.

Lemma runEffect_idle (p : Panel) :
  effectUpdates (events p) (taskState p) = [] ->
  taskState (runEffect p) = taskState p.
Proof. intros H. unfold runEffect; simpl. rewrite H. reflexivity. Qed.

(** The cycle of renders ends: two runs are always enough, and more fuel
    changes nothing. *)
Lemma flushEffects_settles (n : nat) (p : Panel) :
  flushEffects (S (S n)) p = flushEffects 2 p.
Proof.
  cbn [flushEffects].
  destruct (effectUpdates (events p) (taskState p)) eqn:H; [reflexivity |].
  rewrite runEffect_quiescent. reflexivity.
Qed.

Lemma commit_events (p : Panel) : events (commit p) = events p.
Proof.
  unfold commit. cbn [TASKS List.length]. rewrite flushEffects_settles.
  cbn [flushEffects].
  destruct (effectUpdates (events p) (taskState p)); [reflexivity |].
  rewrite runEffect_quiescent. reflexivity.
Qed.

(** The task state after the cycle is the one after the first run. *)
Lemma commit_taskState (p : Panel) :
  taskState (commit p) =
  applyUpdates (effectUpdates (events p) (taskState p)) (taskState p).
Proof.
  unfold commit. cbn [TASKS List.length]. rewrite flushEffects_settles.
  cbn [flushEffects].
  destruct (effectUpdates (events p) (taskState p)) eqn:H.
  - unfold runEffect; simpl. rewrite H. reflexivity.
  - rewrite runEffect_quiescent.
    rewrite (runEffect_idle (runEffect p) (runEffect_quiescent p)).
    unfold runEffect; simpl. rewrite H. reflexivity.
Qed.

(** The cycle ends in a panel whose effect has nothing left to do. *)
Lemma commit_quiescent (p : Panel) :
  effectUpdates (events (commit p)) (taskState (commit p)) = [].
Proof.
  rewrite commit_events, commit_taskState. apply effect_quiescent_after_run.
Qed.

(** **** The changes of the panel as steps *)

Lemma reachable_flushEffects (events0 : list LogEvent) (n : nat) (p : Panel) :
  reachable events0 p -> reachable events0 (flushEffects n p).
Proof.
  revert p. induction n as [| n IH]; intros p Hp; cbn [flushEffects].
  - exact Hp.
  - assert (Hr : reachable events0 (runEffect p))
      by (eapply reach_step; [exact Hp | apply step_effect]).
    destruct (effectUpdates (events p) (taskState p)); [exact Hr |].
    apply IH. exact Hr.
Qed.

Lemma reachable_receiveEvent (events0 : list LogEvent) (e : LogEvent)
    (p : Panel) :
  reachable events0 p -> reachable events0 (receiveEvent e p).
Proof.
  intros Hp. apply reachable_flushEffects.
  eapply reach_step; [exact Hp | apply step_append].
Qed.

Lemma reachable_clickStart (events0 : list LogEvent) (k : TaskKey) (now : Z)
    (p : Panel) :
  reachable events0 p -> reachable events0 (clickStart k now p).
Proof.
  intros Hp. unfold clickStart. destruct (startDisabled k p); [exact Hp |].
  apply reachable_flushEffects.
  eapply reach_step; [exact Hp | apply step_start].
Qed.

Lemma reachable_clickReset (events0 : list LogEvent) (k : TaskKey)
    (p : Panel) :
  reachable events0 p -> reachable events0 (clickReset k p).
Proof.
  intros Hp. apply reachable_flushEffects.
  eapply reach_step; [exact Hp | apply step_reset].
Qed.

(** **** The three states *)

Lemma key_eq_dec (k k' : TaskKey) : {k = k'} + {k <> k'}.
Proof. decide equality. Qed.

Lemma shaped_set (k : TaskKey) (v : TaskState) (m : TaskMap) :
  phase v <> None -> shaped m -> shaped (set k v m).
Proof.
  intros Hv Hm k'. destruct (key_eq_dec k' k) as [-> | Hne].
  - rewrite get_set_same. exact Hv.
  - rewrite get_set_other by exact Hne. apply Hm.
Qed.

Lemma completes_running (last : LogEvent) (task : TaskConfig)
    (st : TaskState) :
  completes last task st = true ->
  exists s, running st = true /\ startT st = Some s /\ endT st = None
            /\ includes (successEvents task) (type last) = true.
Proof.
  unfold completes. destruct st as [r [s |] [e |]]; destruct r; simpl;
    try discriminate.
  intros H. exists s. repeat split; try reflexivity. exact H.
Qed.

Lemma shaped_effect (events : list LogEvent) (m : TaskMap) :
  shaped m -> shaped (applyUpdates (effectUpdates events m) m).
Proof.
  intros Hm k. destruct (lastOf events) as [last |] eqn:Hlast.
  - destruct (task_for_key k) as [task [Hin <-]].
    rewrite (effect_on_task events last m task Hlast Hin).
    destruct (completes last task (get (key task) m)) eqn:Hc; [| apply Hm].
    destruct (completes_running _ _ _ Hc) as [s [_ [Hs _]]].
    unfold phase, completed; simpl. rewrite Hs. discriminate.
  - rewrite effect_without_events by exact Hlast. apply Hm.
Qed.

Lemma shaped_step (p q : Panel) :
  step p q -> shaped (taskState p) -> shaped (taskState q).
Proof.
  intros Hstep Hp. destruct Hstep; simpl.
  - exact Hp.
  - apply shaped_set; [discriminate | exact Hp].
  - apply shaped_set; [discriminate | exact Hp].
  - apply shaped_effect. exact Hp.
Qed.

Lemma shaped_reachable (events0 : list LogEvent) (p : Panel) :
  reachable events0 p -> shaped (taskState p).
Proof.
  induction 1 as [| p q _ IH Hstep].
  - intros k. destruct k; discriminate.
  - exact (shaped_step p q Hstep IH).
Qed.

Lemma phase_timestamps (st : TaskState) (ph : Phase) :
  phase st = Some ph ->
  (endT st <> None <-> ph = Completed)
  /\ (ph = Pending -> startT st = None /\ endT st = None)
  /\ (ph = Running -> startT st <> None /\ endT st = None)
  /\ (ph = Completed -> startT st <> None /\ endT st <> None).
Proof.
  destruct st as [r [s |] [e |]]; destruct r; simpl; intros H;
    inversion H; subst; clear H;
    repeat split; intros; try discriminate; try congruence.
Qed.

(** The label of a row names the state of its task, provided the end time
    is not the number zero, which the label's test takes for no end time. *)
Lemma status_of_phase (st : TaskState) (ph : Phase) :
  phase st = Some ph ->
  endT st <> Some 0 ->
  status st = match ph with
              | Pending => "Pendiente"
              | Running => "En curso"
              | Completed => "Completada"
              end%string.
Proof.
  destruct st as [r [s |] [e |]]; destruct r; simpl; intros H Hz;
    inversion H; subst; clear H; unfold status; simpl; try reflexivity.
  destruct (Z.eqb_spec e 0) as [-> | _]; [congruence | reflexivity].
Qed.

(** A task completed by an event of time zero is labelled as pending. *)
Example status_zero_end_time :
  status {| running := false; startT := Some (-5); endT := Some 0 |}
  = "Pendiente"%string.
Proof. reflexivity. Qed.

(** C2. Whatever sequence of starts, resets and appended events a task
    has gone through, with the effect run at any point, its state is one
    of Pending, Running and Completed, and it carries an end time exactly
    when it is Completed: a Running task has a start time and no end time,
    a Completed task has both. *)
Theorem task_state_invariant (events0 : list LogEvent) (p : Panel)
    (k : TaskKey) :
  reachable events0 p ->
  exists ph : Phase,
    phase (get k (taskState p)) = Some ph
    /\ (endT (get k (taskState p)) <> None <-> ph = Completed)
    /\ (ph = Running ->
        startT (get k (taskState p)) <> None
        /\ endT (get k (taskState p)) = None)
    /\ (ph = Completed ->
        startT (get k (taskState p)) <> None
        /\ endT (get k (taskState p)) <> None).
Proof.
  intros Hp. pose proof (shaped_reachable events0 p Hp k) as Hk.
  destruct (phase (get k (taskState p))) as [ph |] eqn:Hph; [| congruence].
  exists ph. destruct (phase_timestamps _ _ Hph) as [H1 [_ [H3 H4]]].
  split; [reflexivity |]. split; [exact H1 |]. split; [exact H3 | exact H4].
Qed.

Lemma task_state_invariant_witness :
  exists ph : Phase,
    phase (get sound (taskState played_after_start)) = Some ph
    /\ (endT (get sound (taskState played_after_start)) <> None
        <-> ph = Completed)
    /\ (ph = Running ->
        startT (get sound (taskState played_after_start)) <> None
        /\ endT (get sound (taskState played_after_start)) = None)
    /\ (ph = Completed ->
        startT (get sound (taskState played_after_start)) <> None
        /\ endT (get sound (taskState played_after_start)) <> None).
Proof.
  apply (task_state_invariant [] played_after_start sound).
  apply reachable_receiveEvent, reachable_clickStart, reach_mount.
Defined.

(** **** Automatic completion *)

Lemma phase_running (st : TaskState) :
  phase st = Some Running ->
  exists s, running st = true /\ startT st = Some s /\ endT st = None.
Proof.
  destruct st as [r [s |] [e |]]; destruct r; simpl; try discriminate.
  intros _. exists s. repeat split.
Qed.

Lemma phase_not_running (st : TaskState) :
  phase st = Some Pending \/ phase st = Some Completed ->
  running st = false.
Proof.
  destruct st as [r [s |] [e |]]; destruct r; simpl;
    intros [H | H]; try discriminate; reflexivity.
Qed.

Lemma receiveEvent_task (e : LogEvent) (p : Panel) (task : TaskConfig) :
  In task TASKS ->
  get (key task) (taskState (receiveEvent e p)) =
  if completes e task (get (key task) (taskState p))
  then completed e (get (key task) (taskState p))
  else get (key task) (taskState p).
Proof.
  intros Hin. unfold receiveEvent. rewrite commit_taskState.
  cbn [withEvents events taskState].
  apply effect_on_task; [apply lastOf_snoc | exact Hin].
Qed.

(** When several events are appended before the panel renders, the
    effect sees the last of them only. *)
Lemma receiveEvents_task (batch : list LogEvent) (e : LogEvent) (p : Panel)
    (task : TaskConfig) :
  In task TASKS ->
  get (key task) (taskState (receiveEvents (batch ++ [e]) p)) =
  if completes e task (get (key task) (taskState p))
  then completed e (get (key task) (taskState p))
  else get (key task) (taskState p).
Proof.
  intros Hin. unfold receiveEvents.
  destruct (batch ++ [e]) as [| e0 rest] eqn:Hb.
  - destruct batch; discriminate.
  - rewrite <- Hb. rewrite commit_taskState.
    cbn [withEvents events taskState].
    apply effect_on_task; [| exact Hin].
    rewrite app_assoc. apply lastOf_snoc.
Qed.

Lemma receiveEvents_one (e : LogEvent) (p : Panel) :
  receiveEvents [e] p = receiveEvent e p.
Proof. reflexivity. Qed.

(** C3, as amended. When the panel renders after new events have been
    appended to the log, [batch] and then [e], every task that is Running
    and has the type of [e], the last event, among its success events
    becomes Completed, keeping its start time and taking the time of [e]
    as its end time; a task that is Pending or Completed is left as it
    is. *)
Theorem receiveEvent_completes_running_tasks (batch : list LogEvent)
    (e : LogEvent) (p : Panel) (task : TaskConfig) :
  In task TASKS ->
  (phase (get (key task) (taskState p)) = Some Running ->
   includes (successEvents task) (type e) = true ->
   get (key task) (taskState (receiveEvents (batch ++ [e]) p)) =
     {| running := false;
        startT := startT (get (key task) (taskState p));
        endT := Some (t e) |}
   /\ phase (get (key task) (taskState (receiveEvents (batch ++ [e]) p)))
      = Some Completed)
  /\ (phase (get (key task) (taskState p)) = Some Pending
      \/ phase (get (key task) (taskState p)) = Some Completed ->
      get (key task) (taskState (receiveEvents (batch ++ [e]) p)) =
      get (key task) (taskState p)).
Proof.
  intros Hin. rewrite (receiveEvents_task batch e p task Hin). split.
  - intros Hrun Hinc.
    destruct (phase_running _ Hrun) as [s [Hr [Hs He]]].
    unfold completes. rewrite Hr, Hs, He, Hinc. simpl.
    unfold completed, phase; simpl. rewrite Hs. split; reflexivity.
  - intros Hidle. unfold completes.
    rewrite (phase_not_running _ Hidle). reflexivity.
Qed.

Lemma receiveEvent_completes_running_tasks_witness :
  get sound
    (taskState (receiveEvents ([TestModeRuns.crop_change_at_15]
                               ++ [sound_played_at_20]) started_sound)) =
    {| running := false; startT := Some 10; endT := Some 20 |}
  /\ get three
       (taskState (receiveEvents ([TestModeRuns.crop_change_at_15]
                                  ++ [sound_played_at_20]) started_sound)) =
     get three (taskState started_sound).
Proof.
  split.
  - apply (receiveEvent_completes_running_tasks
             [TestModeRuns.crop_change_at_15] sound_played_at_20
             started_sound
             {| key := sound; label := JS.utf16 "Reproducir sonido";
                successEvents := ["sound_played"%string] |}).
    + unfold TASKS. simpl. right. left. reflexivity.
    + reflexivity.
    + reflexivity.
  - apply (receiveEvent_completes_running_tasks
             [TestModeRuns.crop_change_at_15] sound_played_at_20
             started_sound
             {| key := three; label := JS.utf16 "Cargar intro 3D";
                successEvents := ["three_visible"%string] |}).
    + unfold TASKS. simpl. right. right. right. left. reflexivity.
    + left. reflexivity.
Defined.

(** C3, as stated, fails when a handler appends several events before
    the panel renders. A recognized voice command logs [voice_submit] and
    then [post_scheduled] twice, at 101, 104 and 105 on a clock that
    advances at every reading. The voice task is Running and
    [post_scheduled] is one of its success events, but the task does not
    take the time of the first [post_scheduled] as its end time: it ends
    at 105, the time of the last event. *)
Lemma batch_ends_at_last_event :
  option_map (fun p => phase (get voice (taskState p)))
    (TestModeApp.panel TestModeApp.voice_task_started)
  = Some (Some Running)
  /\ TestModeApp.panelEvents
       (TestModeApp.app
          (TestModeApp.handle
             (Voice.submitCommand TestModeApp.ticking
                (JS.utf16 "schedule a post"))
             TestModeApp.voice_task_started))
     = [ {| type := "voice_submit"; t := 101 |};
         {| type := "post_scheduled"; t := 104 |};
         {| type := "post_scheduled"; t := 105 |} ]
  /\ includes ["post_scheduled"; "voice_match_true"]%string "post_scheduled"
     = true
  /\ option_map (fun p => get voice (taskState p))
       (TestModeApp.panel
          (TestModeApp.handle
             (Voice.submitCommand TestModeApp.ticking
                (JS.utf16 "schedule a post"))
             TestModeApp.voice_task_started))
     = Some {| running := false; startT := Some 100; endT := Some 105 |}
  /\ Some 105 <> Some 104.
Proof.
  split; [vm_compute; reflexivity |].
  split; [vm_compute; reflexivity |].
  split; [reflexivity |].
  split; [vm_compute; reflexivity | discriminate].
Qed.

(** A Running task whose success events do not include the type of the
    new event stays Running. *)
Lemma receiveEvent_other_event (e : LogEvent) (p : Panel)
    (task : TaskConfig) :
  In task TASKS ->
  includes (successEvents task) (type e) = false ->
  get (key task) (taskState (receiveEvent e p)) =
  get (key task) (taskState p).
Proof.
  intros Hin Hinc. rewrite (receiveEvent_task e p task Hin).
  unfold completes. rewrite Hinc, !andb_false_r. reflexivity.
Qed.

(** **** Starting a task *)

(** [startTask] has no guard of its own: whatever the state of the task,
    it stores a running task that starts now. *)
Lemma startTask_overwrites (k : TaskKey) (now : Z) (p : Panel) :
  get k (taskState (startTask k now p)) =
  {| running := true; startT := Some now; endT := None |}.
Proof. unfold startTask, setTaskState; simpl. apply get_set_same. Qed.

(** C8. Start on a task that is Running is a no-op: the start button of
    the task, the only caller of [startTask], is disabled while the task
    is Running, so a click on it leaves the panel as it is, and with it
    the running flag, the start time and the end time of the task. *)
Theorem start_on_running_task (k : TaskKey) (now : Z) (p : Panel) :
  phase (get k (taskState p)) = Some Running ->
  startDisabled k p = true
  /\ clickStart k now p = p
  /\ running (get k (taskState (clickStart k now p)))
     = running (get k (taskState p))
  /\ startT (get k (taskState (clickStart k now p)))
     = startT (get k (taskState p))
  /\ endT (get k (taskState (clickStart k now p)))
     = endT (get k (taskState p)).
Proof.
  intros Hrun. destruct (phase_running _ Hrun) as [s [Hr [_ He]]].
  assert (Hclick : clickStart k now p = p).
  { unfold clickStart, startDisabled. rewrite Hr. reflexivity. }
  rewrite Hclick. unfold startDisabled. rewrite Hr. repeat split.
Qed.

Lemma start_on_running_task_witness :
  startDisabled sound started_sound = true
  /\ clickStart sound 99 started_sound = started_sound
  /\ running (get sound (taskState (clickStart sound 99 started_sound)))
     = running (get sound (taskState started_sound))
  /\ startT (get sound (taskState (clickStart sound 99 started_sound)))
     = startT (get sound (taskState started_sound))
  /\ endT (get sound (taskState (clickStart sound 99 started_sound)))
     = endT (get sound (taskState started_sound)).
Proof.
  apply (start_on_running_task sound 99 started_sound). reflexivity.
Defined.

(** Starting a task that is not Running, when the log is empty or ends in
    an event outside the task's success events, makes it Running from now. *)
Lemma clickStart_starts (now : Z) (p : Panel) (task : TaskConfig) :
  In task TASKS ->
  running (get (key task) (taskState p)) = false ->
  match lastOf (events p) with
  | Some last => includes (successEvents task) (type last) = false
  | None => True
  end ->
  get (key task) (taskState (clickStart (key task) now p)) =
  {| running := true; startT := Some now; endT := None |}.
Proof.
  intros Hin Hr Hlast. unfold clickStart, startDisabled. rewrite Hr.
  rewrite commit_taskState.
  destruct (lastOf (events p)) as [last |] eqn:Hl.
  - rewrite (effect_on_task _ last _ task Hl Hin).
    rewrite startTask_overwrites. unfold completes. simpl.
    rewrite Hlast. reflexivity.
  - rewrite effect_without_events by exact Hl. apply startTask_overwrites.
Qed.

(** C10. The effect also runs when the task state changes, and it then
    looks at the last event of the log again, however old: a task started
    after its success event was logged is completed at once, with an end
    time before its start time. *)
Theorem stale_event_completes_started_task :
  lastOf (events played_before_start) = Some sound_played_at_5
  /\ get sound (taskState played_before_start) = idle
  /\ get sound (taskState (clickStart sound 10 played_before_start)) =
     {| running := false; startT := Some 10; endT := Some 5 |}
  /\ events (clickStart sound 10 played_before_start) =
     events played_before_start
  /\ elapsedMs 30 (get sound
       (taskState (clickStart sound 10 played_before_start))) = -5.
Proof. repeat split. Qed.

End TestModeFacts.

(* ===================================================================== *)
(** ** Properties of the photo editor *)
(* ===================================================================== *)

Module PhotoEditFacts.
Import PhotoEdit.

(** **** Upload *)

(** What the upload assigns: the image source and four of the settings. *)
Lemma reader_onload_state (file : File) (s : EditorState) :
  fst (reader_onload file s) =
  {| imageSrc := Some (dataURL file); crop := (0, 0)%Q; zoom := 1%Q;
     rotation := 0%Q; croppedAreaPixels := croppedAreaPixels s;
     filter := "none"; previewUrl := previewUrl s |}.
Proof. reflexivity. Qed.

(** C5, as amended. Once an uploaded image has been read, the image
    source is the data URL of that image and the crop offset, the zoom
    factor, the rotation and the selected filter have their initial
    values. *)
Theorem upload_resets_settings (file : File) (s : EditorState) :
  imageSrc (fst (onSelectFile (Some file) s)) = Some (dataURL file)
  /\ crop (fst (onSelectFile (Some file) s)) = crop initialState
  /\ zoom (fst (onSelectFile (Some file) s)) = zoom initialState
  /\ rotation (fst (onSelectFile (Some file) s)) = rotation initialState
  /\ filter (fst (onSelectFile (Some file) s)) = filter initialState.
Proof. repeat split. Qed.

(** The upload assigns neither the committed crop area nor the preview. *)
Lemma upload_keeps_area_and_preview (file : File) (s : EditorState) :
  croppedAreaPixels (fst (onSelectFile (Some file) s)) = croppedAreaPixels s
  /\ previewUrl (fst (onSelectFile (Some file) s)) = previewUrl s.
Proof. split; reflexivity. Qed.

(** C5, as stated, fails: after a second upload the crop area committed
    for the first image and its preview are still in the state. *)
Lemma upload_does_not_reset_everything :
  croppedAreaPixels (fst (onSelectFile (Some second_file) edited_state))
    = Some area100
  /\ previewUrl (fst (onSelectFile (Some second_file) edited_state))
    = Some (JS.utf16 "blob:preview-1")
  /\ croppedAreaPixels (fst (onSelectFile (Some second_file) edited_state))
    <> croppedAreaPixels initialState
  /\ previewUrl (fst (onSelectFile (Some second_file) edited_state))
    <> previewUrl initialState.
Proof. repeat split; discriminate. Qed.

(** Without a selected file the handler returns at once. *)
Lemma onSelectFile_no_file (s : EditorState) :
  onSelectFile None s = (s, []).
Proof. reflexivity. Qed.

(** **** The canvas pipeline *)

Lemma update_new (d : Document) (c : Canvas) (f : Canvas -> Canvas) :
  update (List.length d) f (d ++ [c]) = d ++ [f c].
Proof.
  induction d as [| c0 d IH]; simpl; [reflexivity |]. rewrite IH. reflexivity.
Qed.

Lemma nth_new (d : Document) (c : Canvas) :
  nth (List.length d) (d ++ [c]) blankCanvas = c.
Proof. apply nth_middle. Qed.

(** Within the range of a canvas dimension, the attribute holds the
    number that was assigned. *)
Lemma dimension_in_range (default v : Z) :
  0 <= v <= 2147483647 -> dimension default v = v.
Proof.
  intros Hv. unfold dimension, ToUint32.
  rewrite Z.mod_small by lia.
  destruct (Z.leb_spec v 2147483647); [reflexivity | lia].
Qed.

(** Whatever is assigned, the attribute holds a number of that range (the
    defaults are 300 and 150). *)
Lemma dimension_range (default v : Z) :
  0 <= default <= 2147483647 ->
  0 <= dimension default v <= 2147483647.
Proof.
  intros Hd. unfold dimension, ToUint32.
  pose proof (Z.mod_pos_bound v 4294967296 ltac:(lia)) as Hm.
  destruct (Z.leb_spec (v mod 4294967296) 2147483647); lia.
Qed.

Section Browser.

Variable decodeImage : JS.jsstring -> option (Z * Z).
Variable context2d : bool.
Variable encodePNG : Canvas -> list N.

(** The whole run of [getCroppedImg]: the one canvas it creates is added
    to the document, and the result is read off that canvas alone. *)
Lemma getCroppedImg_run (imageSrcLocal : JS.jsstring) (cropPixels : CropArea)
    (rotationDeg : Q) (cssFilter : string) (d : Document) :
  getCroppedImg decodeImage context2d encodePNG
      imageSrcLocal cropPixels rotationDeg cssFilter d =
  match decodeImage imageSrcLocal with
  | None => (Thrown ImageLoadError, d)
  | Some (w, h) =>
      if context2d then
        let surface := drawnCanvas
          {| src := imageSrcLocal; imageWidth := w; imageHeight := h |}
          cropPixels rotationDeg cssFilter in
        (Ok (if (0 <? canvasWidth surface) && (0 <? canvasHeight surface)
             then Some {| mime := "image/png";
                          pixelWidth := canvasWidth surface;
                          pixelHeight := canvasHeight surface;
                          bytes := encodePNG surface |}
             else None),
         d ++ [surface])
      else (Thrown CanvasContextNotAvailable, d ++ [blankCanvas])
  end.
Proof.
  unfold getCroppedImg, createImage.
  destruct (decodeImage imageSrcLocal) as [[w h] |]; [| reflexivity].
  unfold getContext, toBlob, set_width, set_height, send, readCanvas,
    modifyCanvas, createElement_canvas, bind, ret, throw.
  destruct context2d; [| reflexivity].
  cbn [negb].
  repeat (rewrite ?update_new, ?nth_new;
          cbn [canvasWidth canvasHeight ops app]).
  unfold drawnCanvas. cbn [canvasWidth canvasHeight].
  destruct ((0 <? dimension 300 (width cropPixels))
            && (0 <? dimension 150 (height cropPixels)));
    reflexivity.
Qed.

(** The result does not depend on the document that the call runs in:
    the blob is read off the canvas that the call itself has created. *)
Lemma getCroppedImg_ignores_document (imageSrcLocal : JS.jsstring)
    (cropPixels : CropArea) (rotationDeg : Q) (cssFilter : string)
    (d d' : Document) :
  fst (getCroppedImg decodeImage context2d encodePNG
         imageSrcLocal cropPixels rotationDeg cssFilter d) =
  fst (getCroppedImg decodeImage context2d encodePNG
         imageSrcLocal cropPixels rotationDeg cssFilter d').
Proof.
  rewrite !getCroppedImg_run.
  destruct (decodeImage imageSrcLocal) as [[w h] |]; [| reflexivity].
  destruct context2d; reflexivity.
Qed.

End Browser.




End PhotoEditFacts.

(* ===================================================================== *)
(** ** Properties of the decimal numeral of a number *)
(* ===================================================================== *)

Module JSFacts.
Import JS.

Lemma N_of_ascii_inj (a b : ascii) : N_of_ascii a = N_of_ascii b -> a = b.
Proof.
  intros H. rewrite <- (ascii_N_embedding a), <- (ascii_N_embedding b).
  rewrite H. reflexivity.
Qed.

Lemma map_N_of_ascii_inj (l l' : list ascii) :
  map N_of_ascii l = map N_of_ascii l' -> l = l'.
Proof.
  revert l'. induction l as [| a l IH]; intros [| b l'] H;
    simpl in H; try discriminate; [reflexivity |].
  injection H as Hab Hl. rewrite (N_of_ascii_inj a b Hab), (IH l' Hl).
  reflexivity.
Qed.

Lemma list_ascii_of_string_inj (u v : string) :
  list_ascii_of_string u = list_ascii_of_string v -> u = v.
Proof.
  intros H. rewrite <- (string_of_list_ascii_of_string u),
    <- (string_of_list_ascii_of_string v), H. reflexivity.
Qed.

(** Distinct integers have distinct numerals. *)
Lemma String_of_number_inj (n m : Z) :
  String_of_number n = String_of_number m -> n = m.
Proof.
  unfold String_of_number. intros H.
  apply map_N_of_ascii_inj, list_ascii_of_string_inj in H.
  assert (Hs : Some (Z.to_int n) = Some (Z.to_int m))
    by (rewrite <- !NilEmpty.isi, H; reflexivity).
  injection Hs as Hs. apply DecimalZ.to_int_inj. exact Hs.
Qed.

End JSFacts.

(* ===================================================================== *)
(** ** Properties of the voice command *)
(* ===================================================================== *)

Module VoiceFacts.
Import JS StateM Voice.

(** The three commands of the specification. *)
Lemma intent_programar_publicacion :
  isScheduleIntent (utf16 "programar publicación") = true.
Proof. vm_compute. reflexivity. Qed.

Lemma intent_schedule_a_post :
  isScheduleIntent (utf16 "schedule a post") = true.
Proof. vm_compute. reflexivity. Qed.

Lemma intent_hola : isScheduleIntent (utf16 "hola") = false.
Proof. vm_compute. reflexivity. Qed.

(** Case, accents and surrounding blanks do not matter. *)
Example normalize_example :
  normalize (utf16 "  Programar PUBLICACIÓN ") = utf16 "programar publicacion".
Proof. vm_compute. reflexivity. Qed.

(** The intent must be made of whole words. *)
Example intent_needs_word_boundaries :
  isScheduleIntent (utf16 "reschedule a post") = false
  /\ isScheduleIntent (utf16 "programa un post") = true
  /\ isScheduleIntent (utf16 "crear una programación") = true.
Proof. vm_compute. repeat split. Qed.

(** What a submission does to the list of posts. *)
Lemma onVoiceSubmit_posts (clock : nat -> Z) (s : App) :
  scheduledPosts (exec (onVoiceSubmit clock) s) =
  if isScheduleIntent (voiceText s) then
    {| id := String_of_number (clock (S (clockReads s)));
       createdAt := clock (S (S (clockReads s)));
       title := utf16 "Publicación programada" |} :: scheduledPosts s
  else scheduledPosts s.
Proof.
  unfold exec, onVoiceSubmit, handleFeedback, log, Date_now, setEvents,
    setFeedback, setScheduledPosts, bind, get, modify.
  destruct s as [ev fb vt posts reads].
  cbn [events feedback voiceText scheduledPosts clockReads fst snd].
  destruct (isScheduleIntent vt); reflexivity.
Qed.

Lemma submitCommand_posts (clock : nat -> Z) (v : jsstring) (s : App) :
  scheduledPosts (exec (submitCommand clock v) s) =
  if isScheduleIntent v then
    {| id := String_of_number (clock (S (clockReads s)));
       createdAt := clock (S (S (clockReads s)));
       title := utf16 "Publicación programada" |} :: scheduledPosts s
  else scheduledPosts s.
Proof.
  unfold submitCommand, setVoiceText.
  change (exec (bind (modify ?f) (fun _ => onVoiceSubmit clock)) s)
    with (exec (onVoiceSubmit clock) (f s)).
  rewrite onVoiceSubmit_posts. destruct s; reflexivity.
Qed.

(** C7. The commands "programar publicación" and "schedule a post" are
    recognized, and submitting either puts a new post with the default
    title in front of the posts there were; "hola" is not recognized, and
    submitting it leaves the list of posts as it was. *)
Theorem voice_command_schedules_post (clock : nat -> Z) (s : App) :
  (isScheduleIntent (utf16 "programar publicación") = true
   /\ exists post : ScheduledPost,
        scheduledPosts
          (exec (submitCommand clock (utf16 "programar publicación")) s)
        = post :: scheduledPosts s
        /\ title post = utf16 "Publicación programada")
  /\ (isScheduleIntent (utf16 "schedule a post") = true
      /\ exists post : ScheduledPost,
           scheduledPosts
             (exec (submitCommand clock (utf16 "schedule a post")) s)
           = post :: scheduledPosts s
           /\ title post = utf16 "Publicación programada")
  /\ (isScheduleIntent (utf16 "hola") = false
      /\ scheduledPosts (exec (submitCommand clock (utf16 "hola")) s)
         = scheduledPosts s).
Proof.
  rewrite !submitCommand_posts.
  rewrite intent_programar_publicacion, intent_schedule_a_post, intent_hola.
  repeat split; eexists; split; reflexivity.
Qed.

(** The notification of each outcome. *)
Lemma submitCommand_feedback (clock : nat -> Z) (v : jsstring) (s : App) :
  feedback (exec (submitCommand clock v) s) =
  if isScheduleIntent v then utf16 "Publicación programada"
  else utf16 "Comando no reconocido".
Proof.
  unfold exec, submitCommand, setVoiceText, onVoiceSubmit, handleFeedback,
    log, Date_now, setEvents, setFeedback, setScheduledPosts, bind, get,
    modify.
  destruct s as [ev fb vt posts reads].
  cbn [events feedback voiceText scheduledPosts clockReads fst snd].
  destruct (isScheduleIntent v); reflexivity.
Qed.

End VoiceFacts.

(* ===================================================================== *)
(** ** Properties of the save form *)
(* ===================================================================== *)

Module SchedulerFacts.
Import JS StateM Scheduler.

(** What a save does to the list of posts. *)
Lemma saveScheduledPost_posts (clock : nat -> Z)
    (Date_getTime : jsstring -> timeValue) (s : App) :
  scheduledPosts (exec (saveScheduledPost clock Date_getTime) s) =
  {| id := String_of_number (clock (clockReads s));
     createdAt := clock (S (clockReads s));
     title := orElse (trim (manualTitle s)) (utf16 "Publicación programada");
     description := trim (description_input s);
     scheduledAt := Date_getTime (scheduledAtLocal s) |}
  :: scheduledPosts s.
Proof. destruct s; reflexivity. Qed.

Lemma save_posts (clock : nat -> Z) (Date_getTime : jsstring -> timeValue)
    (titleText descriptionText whenText : jsstring) (s : App) :
  scheduledPosts
    (exec (save clock Date_getTime titleText descriptionText whenText) s) =
  {| id := String_of_number (clock (clockReads s));
     createdAt := clock (S (clockReads s));
     title := orElse (trim titleText) (utf16 "Publicación programada");
     description := trim descriptionText;
     scheduledAt := Date_getTime whenText |}
  :: scheduledPosts s.
Proof. destruct s; reflexivity. Qed.

(** C6, as amended. Saving with a title that is empty once trimmed puts
    a new post in front of the posts there were, which stay as they are;
    its title is the placeholder, its description is the given description
    with the surrounding white space removed, and its scheduled time is
    the time value of the chosen date and time. *)
Theorem save_with_blank_title (clock : nat -> Z)
    (Date_getTime : jsstring -> timeValue)
    (titleText descriptionText whenText : jsstring) (s : App) :
  trim titleText = [] ->
  exists post : ScheduledPost,
    scheduledPosts
      (exec (save clock Date_getTime titleText descriptionText whenText) s)
    = post :: scheduledPosts s
    /\ title post = utf16 "Publicación programada"
    /\ description post = trim descriptionText
    /\ scheduledAt post = Date_getTime whenText.
Proof.
  intros Hblank. rewrite save_posts, Hblank.
  eexists. split; [reflexivity |]. repeat split.
Qed.

Lemma save_with_blank_title_witness :
  exists post : ScheduledPost,
    scheduledPosts
      (exec (save frozen_clock noon (utf16 "  ") (utf16 "x")
               (utf16 "2030-01-01T12:00")) (initialApp []))
    = post :: scheduledPosts (initialApp [])
    /\ title post = utf16 "Publicación programada"
    /\ description post = trim (utf16 "x")
    /\ scheduledAt post = noon (utf16 "2030-01-01T12:00").
Proof.
  apply (save_with_blank_title frozen_clock noon (utf16 "  ") (utf16 "x")
           (utf16 "2030-01-01T12:00") (initialApp [])).
  reflexivity.
Defined.

(** The example of the specification: an empty title and the description
    "x". *)
Example save_example :
  scheduledPosts
    (exec (save frozen_clock noon [] (utf16 "x") (utf16 "2030-01-01T12:00"))
          (initialApp []))
  = [ {| id := utf16 "1000"; createdAt := 1000;
         title := utf16 "Publicación programada";
         description := utf16 "x";
         scheduledAt := Some 1893499200000 |} ].
Proof. vm_compute. reflexivity. Qed.

(** C6, as stated, fails: a description with blanks around it is not
    stored as given. *)
Lemma save_trims_description :
  map description
    (scheduledPosts
       (exec (save frozen_clock noon [] (utf16 " x ")
                (utf16 "2030-01-01T12:00")) (initialApp [])))
  = [utf16 "x"]
  /\ utf16 "x" <> utf16 " x ".
Proof. split; [vm_compute; reflexivity | discriminate]. Qed.

(** A title that is not blank is kept, trimmed. *)
Lemma save_with_title (clock : nat -> Z)
    (Date_getTime : jsstring -> timeValue)
    (titleText descriptionText whenText : jsstring) (s : App) :
  trim titleText <> [] ->
  map title
    (scheduledPosts
       (exec (save clock Date_getTime titleText descriptionText whenText) s))
  = trim titleText :: map title (scheduledPosts s).
Proof.
  intros H. rewrite save_posts. cbn [map title].
  destruct (trim titleText); [congruence | reflexivity].
Qed.

End SchedulerFacts.

(* ===================================================================== *)
(** ** The ids of the posts *)
(* ===================================================================== *)

Module IdFacts.
Import JS StateM.

Lemma save_newestId (clock : nat -> Z)
    (Date_getTime : jsstring -> Scheduler.timeValue)
    (titleText descriptionText whenText : jsstring) (s : Scheduler.App) :
  Scheduler.newestId
    (exec (Scheduler.save clock Date_getTime
             titleText descriptionText whenText) s)
  = Some (String_of_number (clock (Scheduler.clockReads s))).
Proof.
  unfold Scheduler.newestId. rewrite SchedulerFacts.save_posts. reflexivity.
Qed.

Lemma submitCommand_newestId (clock : nat -> Z) (v : jsstring)
    (s : Voice.App) :
  Voice.isScheduleIntent v = true ->
  Voice.newestId (exec (Voice.submitCommand clock v) s)
  = Some (String_of_number (clock (S (Voice.clockReads s)))).
Proof.
  intros H. unfold Voice.newestId.
  rewrite VoiceFacts.submitCommand_posts, H. reflexivity.
Qed.

Lemma save_clockReads (clock : nat -> Z)
    (Date_getTime : jsstring -> Scheduler.timeValue)
    (titleText descriptionText whenText : jsstring) (s : Scheduler.App) :
  Scheduler.clockReads
    (exec (Scheduler.save clock Date_getTime
             titleText descriptionText whenText) s)
  = (4 + Scheduler.clockReads s)%nat.
Proof. destruct s; reflexivity. Qed.

Section Fold.

(** Any step that reads the clock four times and puts in front of the
    list a post with the numeral of the first reading as its id. *)
Variable clock : nat -> Z.
Variable A : Type.
Variable step : Scheduler.App -> A -> Scheduler.App.
Hypothesis step_posts : forall s a,
  map Scheduler.id (Scheduler.scheduledPosts (step s a)) =
  String_of_number (clock (Scheduler.clockReads s))
  :: map Scheduler.id (Scheduler.scheduledPosts s).
Hypothesis step_reads : forall s a,
  Scheduler.clockReads (step s a) = (4 + Scheduler.clockReads s)%nat.

Lemma fold_ids (l : list A) (s : Scheduler.App) :
  map Scheduler.id (Scheduler.scheduledPosts (fold_left step l s))
  = rev (map (fun k => String_of_number
                         (clock (Scheduler.clockReads s + 4 * k)%nat))
             (seq 0 (List.length l)))
    ++ map Scheduler.id (Scheduler.scheduledPosts s).
Proof.
  revert s. induction l as [| a l IH]; intros s.
  - reflexivity.
  - cbn [fold_left]. rewrite IH, step_posts, step_reads.
    cbn [List.length seq map rev].
    rewrite <- seq_shift, map_map, <- app_assoc.
    rewrite Nat.mul_0_r, Nat.add_0_r.
    f_equal. f_equal. apply map_ext. intros k.
    f_equal. f_equal. lia.
Qed.

End Fold.

(** The ids after a session, newest first: the [k]-th save takes the
    reading of the clock that follows the four readings of each save
    before it. *)
Lemma session_ids (clock : nat -> Z)
    (Date_getTime : jsstring -> Scheduler.timeValue)
    (forms : list (jsstring * jsstring * jsstring)) (s : Scheduler.App) :
  map Scheduler.id
    (Scheduler.scheduledPosts (Scheduler.session clock Date_getTime forms s))
  = rev (map (fun k => String_of_number
                         (clock (Scheduler.clockReads s + 4 * k)%nat))
             (seq 0 (List.length forms)))
    ++ map Scheduler.id (Scheduler.scheduledPosts s).
Proof.
  unfold Scheduler.session. apply fold_ids.
  - intros s' form. rewrite SchedulerFacts.save_posts. reflexivity.
  - intros s' form. apply save_clockReads.
Qed.

(** In a session the ids are pairwise distinct exactly when the readings
    taken for them are. *)
Lemma session_ids_NoDup (clock : nat -> Z)
    (Date_getTime : jsstring -> Scheduler.timeValue)
    (forms : list (jsstring * jsstring * jsstring)) (local0 : jsstring) :
  NoDup (map Scheduler.id
           (Scheduler.scheduledPosts
              (Scheduler.session clock Date_getTime forms
                 (Scheduler.initialApp local0))))
  <-> NoDup (map (fun k => clock (4 * k)%nat) (seq 0 (List.length forms))).
Proof.
  rewrite session_ids.
  change (Scheduler.clockReads (Scheduler.initialApp local0)) with 0%nat.
  change (Scheduler.scheduledPosts (Scheduler.initialApp local0))
    with (@nil Scheduler.ScheduledPost).
  cbn [map plus]. rewrite app_nil_r.
  rewrite <- (map_map (fun k => clock (4 * k)%nat) String_of_number).
  set (l := map (fun k => clock (4 * k)%nat) (seq 0 (List.length forms))).
  split; intros H.
  - apply NoDup_rev in H. rewrite rev_involutive in H.
    apply NoDup_map_inv in H. exact H.
  - apply NoDup_rev. apply Injective_map_NoDup; [| exact H].
    intros n m. apply JSFacts.String_of_number_inj.
Qed.

(** C9, as amended. The id of a post is the numeral of the reading of the
    clock taken for it when it is created, by the save form or by a
    recognized command; so two posts have the same id exactly when those
    two readings are the same, and posts created at different readings of
    the clock have different ids. *)
Theorem post_ids_differ_iff_clock_readings_differ
    (clock : nat -> Z) (Date_getTime : jsstring -> Scheduler.timeValue)
    (title1 description1 when1 title2 description2 when2 : jsstring)
    (a1 a2 : Scheduler.App)
    (command1 command2 : jsstring) (v1 v2 : Voice.App) :
  Voice.isScheduleIntent command1 = true ->
  Voice.isScheduleIntent command2 = true ->
  (Scheduler.newestId
     (exec (Scheduler.save clock Date_getTime title1 description1 when1) a1)
   <> Scheduler.newestId
     (exec (Scheduler.save clock Date_getTime title2 description2 when2) a2)
   <-> clock (Scheduler.clockReads a1) <> clock (Scheduler.clockReads a2))
  /\ (Voice.newestId (exec (Voice.submitCommand clock command1) v1)
      <> Voice.newestId (exec (Voice.submitCommand clock command2) v2)
      <-> clock (S (Voice.clockReads v1)) <> clock (S (Voice.clockReads v2))).
Proof.
  intros H1 H2. rewrite !save_newestId.
  rewrite (submitCommand_newestId clock command1 v1 H1),
          (submitCommand_newestId clock command2 v2 H2).
  split; split; intros Hne Heq; apply Hne.
  - rewrite Heq. reflexivity.
  - injection Heq as Heq. apply JSFacts.String_of_number_inj. exact Heq.
  - rewrite Heq. reflexivity.
  - injection Heq as Heq. apply JSFacts.String_of_number_inj. exact Heq.
Qed.

Lemma post_ids_differ_iff_clock_readings_differ_witness :
  (Scheduler.newestId
     (exec (Scheduler.save Z.of_nat Scheduler.noon (utf16 "a") []
              (utf16 "2030-01-01T12:00")) (Scheduler.initialApp []))
   <> Scheduler.newestId
     (exec (Scheduler.save Z.of_nat Scheduler.noon (utf16 "b") []
              (utf16 "2030-01-01T12:00"))
        (exec (Scheduler.save Z.of_nat Scheduler.noon (utf16 "a") []
                 (utf16 "2030-01-01T12:00")) (Scheduler.initialApp [])))
   <-> Z.of_nat 0 <> Z.of_nat 4)
  /\ (Voice.newestId
        (exec (Voice.submitCommand Z.of_nat (utf16 "schedule a post"))
           Voice.initialApp)
      <> Voice.newestId
        (exec (Voice.submitCommand Z.of_nat (utf16 "programar post"))
           (exec (Voice.submitCommand Z.of_nat (utf16 "schedule a post"))
              Voice.initialApp))
      <-> Z.of_nat 1 <> Z.of_nat 6).
Proof.
  apply (post_ids_differ_iff_clock_readings_differ Z.of_nat Scheduler.noon
           (utf16 "a") [] (utf16 "2030-01-01T12:00")
           (utf16 "b") [] (utf16 "2030-01-01T12:00")
           (Scheduler.initialApp [])
           (exec (Scheduler.save Z.of_nat Scheduler.noon (utf16 "a") []
                    (utf16 "2030-01-01T12:00")) (Scheduler.initialApp []))
           (utf16 "schedule a post") (utf16 "programar post")
           Voice.initialApp
           (exec (Voice.submitCommand Z.of_nat (utf16 "schedule a post"))
              Voice.initialApp)).
  - vm_compute. reflexivity.
  - vm_compute. reflexivity.
Defined.

(** C9, as stated, fails: two posts created within one millisecond have
    the same id, by the save form (the posts differ in their titles) and
    by the voice command alike. *)
Lemma same_millisecond_same_id :
  map Scheduler.id
    (Scheduler.scheduledPosts Scheduler.two_saves_in_one_millisecond)
  = [utf16 "1000"; utf16 "1000"]
  /\ map Scheduler.title
       (Scheduler.scheduledPosts Scheduler.two_saves_in_one_millisecond)
     = [utf16 "b"; utf16 "a"]
  /\ map Voice.id
       (Voice.scheduledPosts Voice.two_commands_in_one_millisecond)
     = [utf16 "1000"; utf16 "1000"].
Proof. vm_compute. repeat split. Qed.

End IdFacts.

(* ===================================================================== *)
(** ** Further properties of the task tracker *)
(* ===================================================================== *)

Module TestModeRunFacts.
Import TestMode TestModeRuns TestModeFacts.

Lemma taskmap_ext (m m' : TaskMap) :
  (forall k, get k m = get k m') -> m = m'.
Proof.
  intros H. destruct m as [a b c d], m' as [a' b' c' d'].
  pose proof (H photo_edit) as H1. pose proof (H sound) as H2.
  pose proof (H voice) as H3. pose proof (H three) as H4.
  simpl in H1, H2, H3, H4. subst. reflexivity.
Qed.

Lemma completes_false_not_running (last : LogEvent) (task : TaskConfig)
    (st : TaskState) :
  running st = false -> completes last task st = false.
Proof. intros H. unfold completes. rewrite H. reflexivity. Qed.

Lemma commit_lastEventRef (p : Panel) :
  lastEventRef (commit p) =
  match lastOf (events p) with
  | None => lastEventRef p
  | Some last => Some last
  end.
Proof.
  unfold commit. cbn [TASKS List.length]. rewrite flushEffects_settles.
  cbn [flushEffects].
  destruct (effectUpdates (events p) (taskState p)) eqn:H.
  - reflexivity.
  - rewrite runEffect_quiescent. unfold runEffect; simpl.
    destruct (lastOf (events p)); reflexivity.
Qed.

(** X1. The cycle of renders that the effect starts always ends: after
    two runs of the effect no update is queued any more, whatever the log
    and the task state, so more renders change nothing. *)
Theorem effect_cycle_ends (n : nat) (p : Panel) :
  flushEffects (2 + n) p = flushEffects 2 p
  /\ quiescent (flushEffects 2 p)
  /\ quiescent (commit p).
Proof.
  split; [apply flushEffects_settles |]. split.
  - unfold quiescent. cbn [flushEffects].
    destruct (effectUpdates (events p) (taskState p)) eqn:H.
    + unfold runEffect; simpl. rewrite H. simpl. exact H.
    + rewrite runEffect_quiescent. apply runEffect_quiescent.
  - apply commit_quiescent.
Qed.

(** X2. When a handler appends several events before the panel renders,
    the tasks end up as if only the last of these events had been
    appended: the events before it are never looked at. *)
Theorem receiveEvents_sees_last_only (batch : list LogEvent) (e : LogEvent)
    (p : Panel) :
  taskState (receiveEvents (batch ++ [e]) p) = taskState (receiveEvent e p)
  /\ events (receiveEvents (batch ++ [e]) p) = events p ++ batch ++ [e].
Proof.
  split.
  - apply taskmap_ext. intros k.
    destruct (task_for_key k) as [task [Hin <-]].
    rewrite (receiveEvents_task batch e p task Hin).
    rewrite (receiveEvent_task e p task Hin). reflexivity.
  - unfold receiveEvents. destruct (batch ++ [e]) eqn:Hb.
    + destruct batch; discriminate.
    + rewrite <- Hb. rewrite commit_events. reflexivity.
Qed.

(** **** Sequences of events *)

Lemma receiveAll_cons (e : LogEvent) (es : list LogEvent) (p : Panel) :
  receiveAll (e :: es) p = receiveAll es (receiveEvent e p).
Proof. reflexivity. Qed.

Lemma receiveAll_app (es es' : list LogEvent) (p : Panel) :
  receiveAll (es ++ es') p = receiveAll es' (receiveAll es p).
Proof. unfold receiveAll. apply fold_left_app. Qed.

Lemma receiveAll_not_running (es : list LogEvent) (p : Panel)
    (task : TaskConfig) :
  In task TASKS ->
  running (get (key task) (taskState p)) = false ->
  get (key task) (taskState (receiveAll es p)) = get (key task) (taskState p).
Proof.
  intros Hin. revert p. induction es as [| e es IH]; intros p Hr.
  - reflexivity.
  - rewrite receiveAll_cons.
    assert (He : get (key task) (taskState (receiveEvent e p))
                 = get (key task) (taskState p)).
    { rewrite (receiveEvent_task e p task Hin).
      rewrite completes_false_not_running by exact Hr. reflexivity. }
    rewrite IH; [exact He | rewrite He; exact Hr].
Qed.

Lemma receiveAll_other_events (es : list LogEvent) (p : Panel)
    (task : TaskConfig) :
  In task TASKS ->
  Forall (fun e => includes (successEvents task) (type e) = false) es ->
  get (key task) (taskState (receiveAll es p)) = get (key task) (taskState p).
Proof.
  intros Hin Hes. revert p. induction Hes as [| e es He _ IH]; intros p.
  - reflexivity.
  - rewrite receiveAll_cons, IH.
    apply receiveEvent_other_event; assumption.
Qed.

(** X3. The first success event after the start decides: a Running task
    that receives events of which the first with a type among its success
    events is [e] ends up Completed with the time of [e] as its end time,
    whatever events follow, matching or not. *)
Theorem first_success_event_wins (before after : list LogEvent)
    (e : LogEvent) (p : Panel) (task : TaskConfig) :
  In task TASKS ->
  phase (get (key task) (taskState p)) = Some Running ->
  Forall (fun e' => includes (successEvents task) (type e') = false) before ->
  includes (successEvents task) (type e) = true ->
  get (key task) (taskState (receiveAll (before ++ e :: after) p)) =
  {| running := false;
     startT := startT (get (key task) (taskState p));
     endT := Some (t e) |}.
Proof.
  intros Hin Hrun Hbefore He.
  rewrite receiveAll_app, receiveAll_cons.
  assert (Hst : get (key task)
                  (taskState (receiveEvent e (receiveAll before p)))
                = completed e (get (key task) (taskState p))).
  { rewrite (receiveEvent_task e _ task Hin).
    rewrite (receiveAll_other_events before p task Hin Hbefore).
    destruct (phase_running _ Hrun) as [s [Hr [Hs Hn]]].
    unfold completes. rewrite Hr, Hs, Hn, He. reflexivity. }
  rewrite receiveAll_not_running; [exact Hst | exact Hin |].
  rewrite Hst. reflexivity.
Qed.

Lemma first_success_event_wins_witness :
  get sound
    (taskState (receiveAll [crop_change_at_15; sound_played_at_20;
                            sound_played_at_30] started_sound)) =
  {| running := false; startT := Some 10; endT := Some 20 |}.
Proof.
  apply (first_success_event_wins [crop_change_at_15] [sound_played_at_30]
           sound_played_at_20 started_sound
           {| key := sound; label := JS.utf16 "Reproducir sonido";
              successEvents := ["sound_played"%string] |}).
  - unfold TASKS. simpl. right. left. reflexivity.
  - reflexivity.
  - repeat constructor.
  - reflexivity.
Defined.

(** **** One event, one task *)

Lemma success_events_disjoint (task task' : TaskConfig) (ty : string) :
  In task TASKS -> In task' TASKS ->
  includes (successEvents task) ty = true ->
  includes (successEvents task') ty = true ->
  task = task'.
Proof.
  unfold TASKS. cbn [In].
  intros [<- | [<- | [<- | [<- | []]]]] [<- | [<- | [<- | [<- | []]]]];
    try reflexivity; unfold includes; cbn [successEvents existsb];
    intros H H'; exfalso;
    repeat match goal with
    | H : (String.eqb ty ?s || _)%bool = true |- _ =>
        destruct (String.eqb_spec ty s); [subst ty; discriminate |];
        cbn [orb] in H
    | H : false = true |- _ => discriminate H
    end.
Qed.

Lemma receiveEvent_changes (e : LogEvent) (p : Panel) (task : TaskConfig) :
  In task TASKS ->
  get (key task) (taskState (receiveEvent e p))
    <> get (key task) (taskState p) ->
  includes (successEvents task) (type e) = true.
Proof.
  intros Hin Hne. rewrite (receiveEvent_task e p task Hin) in Hne.
  destruct (completes e task (get (key task) (taskState p))) eqn:Hc.
  - destruct (completes_running _ _ _ Hc) as [s [_ [_ [_ H]]]]. exact H.
  - contradiction Hne. reflexivity.
Qed.

(** X4. An appended event changes at most one task: the success events
    of the four tasks have no type in common, so when one task changes on
    an event every other task is left as it is. *)
Theorem event_changes_one_task (e : LogEvent) (p : Panel)
    (task task' : TaskConfig) :
  In task TASKS -> In task' TASKS -> task' <> task ->
  get (key task) (taskState (receiveEvent e p))
    <> get (key task) (taskState p) ->
  get (key task') (taskState (receiveEvent e p))
    = get (key task') (taskState p).
Proof.
  intros Hin Hin' Hne Hc.
  rewrite (receiveEvent_task e p task' Hin').
  destruct (completes e task' (get (key task') (taskState p))) eqn:Hc';
    [| reflexivity].
  destruct (completes_running _ _ _ Hc') as [s [_ [_ [_ Hinc']]]].
  contradiction Hne. symmetry.
  apply (success_events_disjoint task task' (type e) Hin Hin');
    [| exact Hinc'].
  exact (receiveEvent_changes e p task Hin Hc).
Qed.

Lemma event_changes_one_task_witness :
  get three (taskState (receiveEvent sound_played_at_20 two_started))
  = get three (taskState two_started).
Proof.
  apply (event_changes_one_task sound_played_at_20 two_started
           {| key := sound; label := JS.utf16 "Reproducir sonido";
              successEvents := ["sound_played"%string] |}
           {| key := three; label := JS.utf16 "Cargar intro 3D";
              successEvents := ["three_visible"%string] |}).
  - unfold TASKS. simpl. right. left. reflexivity.
  - unfold TASKS. simpl. right. right. right. left. reflexivity.
  - discriminate.
  - discriminate.
Defined.

(** **** Start and reset *)

Lemma clickStart_task (now : Z) (p : Panel) (task : TaskConfig) :
  In task TASKS ->
  running (get (key task) (taskState p)) = false ->
  get (key task) (taskState (clickStart (key task) now p)) =
  match lastOf (events p) with
  | Some last =>
      if includes (successEvents task) (type last)
      then {| running := false; startT := Some now; endT := Some (t last) |}
      else {| running := true; startT := Some now; endT := None |}
  | None => {| running := true; startT := Some now; endT := None |}
  end.
Proof.
  intros Hin Hr. unfold clickStart, startDisabled. rewrite Hr.
  rewrite commit_taskState.
  destruct (lastOf (events p)) as [last |] eqn:Hl.
  - rewrite (effect_on_task _ last _ task Hl Hin).
    rewrite startTask_overwrites. unfold completes, completed. simpl.
    destruct (includes (successEvents task) (type last)); reflexivity.
  - rewrite effect_without_events by exact Hl. apply startTask_overwrites.
Qed.

(** X5. Pressing start on a task that is not running, while the log is
    empty or ends in an event that is not one of the task's success
    events, makes the task Running with the current time as its start
    time and no end time. *)
Theorem start_makes_running (now : Z) (p : Panel) (task : TaskConfig) :
  In task TASKS ->
  running (get (key task) (taskState p)) = false ->
  (forall last, lastOf (events p) = Some last ->
     includes (successEvents task) (type last) = false) ->
  get (key task) (taskState (clickStart (key task) now p)) =
  {| running := true; startT := Some now; endT := None |}
  /\ events (clickStart (key task) now p) = events p.
Proof.
  intros Hin Hr Hlast. split.
  - rewrite (clickStart_task now p task Hin Hr).
    destruct (lastOf (events p)) as [last |]; [| reflexivity].
    rewrite (Hlast last eq_refl). reflexivity.
  - unfold clickStart. destruct (startDisabled (key task) p);
      [reflexivity | rewrite commit_events; reflexivity].
Qed.

Lemma start_makes_running_witness :
  get three (taskState (clickStart three 40 played_after_start)) =
  {| running := true; startT := Some 40; endT := None |}
  /\ events (clickStart three 40 played_after_start)
     = events played_after_start.
Proof.
  apply (start_makes_running 40 played_after_start
           {| key := three; label := JS.utf16 "Cargar intro 3D";
              successEvents := ["three_visible"%string] |}).
  - unfold TASKS. simpl. right. right. right. left. reflexivity.
  - reflexivity.
  - intros last Hlast. vm_compute in Hlast. injection Hlast as <-.
    reflexivity.
Defined.

(** X6. Pressing start on a task that is not running while the log ends
    in one of its success events completes the task in the same cycle of
    renders: its start time is the current time and its end time is the
    time of that earlier event. *)
Theorem start_after_success_event_completes (now : Z) (p : Panel)
    (task : TaskConfig) (last : LogEvent) :
  In task TASKS ->
  running (get (key task) (taskState p)) = false ->
  lastOf (events p) = Some last ->
  includes (successEvents task) (type last) = true ->
  get (key task) (taskState (clickStart (key task) now p)) =
  {| running := false; startT := Some now; endT := Some (t last) |}.
Proof.
  intros Hin Hr Hlast Hinc.
  rewrite (clickStart_task now p task Hin Hr), Hlast, Hinc. reflexivity.
Qed.

Lemma start_after_success_event_completes_witness :
  get sound (taskState (clickStart sound 40 played_after_start)) =
  {| running := false; startT := Some 40; endT := Some 20 |}.
Proof.
  apply (start_after_success_event_completes 40 played_after_start
           {| key := sound; label := JS.utf16 "Reproducir sonido";
              successEvents := ["sound_played"%string] |}
           sound_played_at_20).
  - unfold TASKS. simpl. right. left. reflexivity.
  - reflexivity.
  - reflexivity.
  - reflexivity.
Defined.

Lemma effect_idle_when_quiescent (p : Panel) :
  quiescent p ->
  applyUpdates (effectUpdates (events p) (taskState p)) (taskState p)
  = taskState p.
Proof. unfold quiescent. intros H. rewrite H. reflexivity. Qed.

Lemma quiescent_task (p : Panel) (last : LogEvent) (task : TaskConfig) :
  quiescent p -> lastOf (events p) = Some last -> In task TASKS ->
  completes last task (get (key task) (taskState p)) = false.
Proof.
  intros Hq Hlast Hin.
  pose proof (effect_on_task (events p) last (taskState p) task Hlast Hin)
    as H.
  rewrite effect_idle_when_quiescent in H by exact Hq.
  destruct (completes last task (get (key task) (taskState p))) eqn:Hc;
    [| reflexivity].
  destruct (completes_running _ _ _ Hc) as [s [Hr _]].
  rewrite H in Hr. discriminate Hr.
Qed.

(** What a handler's update of one task leaves of another task, once the
    effect has run. *)
Lemma commit_set_other (p : Panel) (k : TaskKey) (v : TaskState)
    (task : TaskConfig) :
  quiescent p -> In task TASKS -> key task <> k ->
  get (key task)
    (taskState (commit (setTaskState (fun prev => set k v prev) p)))
  = get (key task) (taskState p).
Proof.
  intros Hq Hin Hne. rewrite commit_taskState.
  cbn [setTaskState events taskState].
  destruct (lastOf (events p)) as [last |] eqn:Hl.
  - rewrite (effect_on_task _ last _ task Hl Hin).
    rewrite get_set_other by exact Hne.
    rewrite (quiescent_task p last task Hq Hl Hin). reflexivity.
  - rewrite effect_without_events by exact Hl.
    apply get_set_other. exact Hne.
Qed.

(** X7. Reset works from every state: after a press of the reset button
    the task is Pending, with neither start nor end time, whatever its
    state was and whatever the log holds. *)
Theorem reset_makes_pending (k : TaskKey) (p : Panel) :
  get k (taskState (clickReset k p)) = idle
  /\ phase (get k (taskState (clickReset k p))) = Some Pending
  /\ events (clickReset k p) = events p.
Proof.
  assert (H : get k (taskState (clickReset k p)) = idle).
  { unfold clickReset. rewrite commit_taskState.
    destruct (task_for_key k) as [task [Hin <-]].
    assert (Hset : get (key task) (taskState (resetTask (key task) p))
                   = idle)
      by (unfold resetTask, setTaskState; simpl; apply get_set_same).
    destruct (lastOf (events (resetTask (key task) p))) as [last |] eqn:Hl.
    - rewrite (effect_on_task _ last _ task Hl Hin), Hset. reflexivity.
    - rewrite effect_without_events by exact Hl. exact Hset. }
  split; [exact H |]. split; [rewrite H; reflexivity |].
  unfold clickReset. rewrite commit_events. reflexivity.
Qed.

(** X8. The tasks are independent: on a panel whose effect has nothing
    left to do, a press of the start or of the reset button of one task
    leaves every other task as it is. *)
Theorem buttons_leave_other_tasks (k k' : TaskKey) (now : Z) (p : Panel) :
  quiescent p -> k' <> k ->
  get k' (taskState (clickStart k now p)) = get k' (taskState p)
  /\ get k' (taskState (clickReset k p)) = get k' (taskState p).
Proof.
  intros Hq Hne. destruct (task_for_key k') as [task [Hin <-]]. split.
  - unfold clickStart. destruct (startDisabled k p); [reflexivity |].
    unfold startTask. apply commit_set_other; assumption.
  - unfold clickReset, resetTask. apply commit_set_other; assumption.
Qed.

Lemma buttons_leave_other_tasks_witness :
  get sound (taskState (clickStart three 12 started_sound))
    = get sound (taskState started_sound)
  /\ get sound (taskState (clickReset three started_sound))
     = get sound (taskState started_sound).
Proof.
  apply (buttons_leave_other_tasks three sound 12 started_sound).
  - reflexivity.
  - discriminate.
Defined.

(** The buttons and the arrival of events lead from quiescent panels to
    quiescent panels. *)
Lemma quiescent_after (p : Panel) (k : TaskKey) (now : Z) (e : LogEvent) :
  quiescent p ->
  quiescent (clickStart k now p) /\ quiescent (clickReset k p)
  /\ quiescent (receiveEvent e p).
Proof.
  intros Hq. repeat split.
  - unfold clickStart. destruct (startDisabled k p);
      [exact Hq | apply commit_quiescent].
  - apply commit_quiescent.
  - apply commit_quiescent.
Qed.

End TestModeRunFacts.

(* ===================================================================== *)
(** ** Properties of the event log *)
(* ===================================================================== *)

Module EventLogFacts.
Import JS StateM EventLog.

(** **** The name of the downloaded file *)

Lemma filter_clean (f : N -> bool) (l : list N) :
  Forall (fun c => f c = true) l -> filter f l = l.
Proof.
  induction 1 as [| c l Hc _ IH]; simpl; [reflexivity |].
  rewrite Hc, IH. reflexivity.
Qed.

Lemma firstn_exact {A} (l l' : list A) :
  firstn (List.length l) (l ++ l') = l.
Proof.
  rewrite firstn_app, Nat.sub_diag, firstn_all, firstn_O, app_nil_r.
  reflexivity.
Qed.

(** X9. The file name of a downloaded log keeps the date, the hour and
    the minute of the ISO time only: the seconds, the milliseconds and
    the zone letter are cut off, so two downloads within the same minute
    get the same name. *)
Theorem downloadName_to_the_minute (date_hour minute rest : jsstring) :
  List.length date_hour = 13%nat ->
  List.length minute = 2%nat ->
  Forall (fun c => isColonOrDot c = false) date_hour ->
  Forall (fun c => isColonOrDot c = false) minute ->
  downloadName (date_hour ++ utf16 ":" ++ minute ++ rest) =
  utf16 "promostudio_log_" ++ date_hour ++ minute ++ utf16 ".json".
Proof.
  intros Hd Hm Hcd Hcm. unfold downloadName, fileStamp.
  f_equal. rewrite (app_assoc date_hour minute (utf16 ".json")). f_equal.
  rewrite !filter_app.
  rewrite (filter_clean _ date_hour), (filter_clean _ minute).
  - change (filter _ (utf16 ":")) with (@nil N). cbn [app].
    rewrite (app_assoc date_hour minute).
    replace 15%nat with (List.length (date_hour ++ minute))
      by (rewrite length_app, Hd, Hm; reflexivity).
    apply firstn_exact.
  - eapply Forall_impl; [| exact Hcm]. intros c Hc. cbv beta.
    rewrite Hc. reflexivity.
  - eapply Forall_impl; [| exact Hcd]. intros c Hc. cbv beta.
    rewrite Hc. reflexivity.
Qed.

Lemma downloadName_to_the_minute_witness :
  downloadName (utf16 "2026-11-02T14" ++ utf16 ":" ++ utf16 "42"
                ++ utf16 ":05.123Z") =
  utf16 "promostudio_log_" ++ utf16 "2026-11-02T14" ++ utf16 "42"
  ++ utf16 ".json".
Proof.
  apply (downloadName_to_the_minute (utf16 "2026-11-02T14") (utf16 "42")
           (utf16 ":05.123Z")).
  - reflexivity.
  - reflexivity.
  - repeat constructor.
  - repeat constructor.
Defined.

(** **** What a submitted command logs *)

Lemma submitCommand_events (clock : nat -> Z) (v : jsstring)
    (s : Voice.App) :
  Voice.events (exec (Voice.submitCommand clock v) s) =
  Voice.events s ++
  (if Voice.isScheduleIntent v then
     [ {| Voice.type := "voice_submit";
          Voice.t := clock (Voice.clockReads s);
          Voice.meta := Some [("value"%string, Voice.MStr v)] |};
       {| Voice.type := "post_scheduled";
          Voice.t := clock (3 + Voice.clockReads s)%nat;
          Voice.meta :=
            Some [("id"%string,
                   Voice.MStr (String_of_number
                                 (clock (1 + Voice.clockReads s)%nat)));
                  ("title"%string,
                   Voice.MStr (utf16 "Publicación programada"))] |};
       {| Voice.type := "post_scheduled";
          Voice.t := clock (4 + Voice.clockReads s)%nat;
          Voice.meta :=
            Some [("id"%string,
                   Voice.MStr (String_of_number
                                 (clock (1 + Voice.clockReads s)%nat)))] |} ]
   else
     [ {| Voice.type := "voice_submit";
          Voice.t := clock (Voice.clockReads s);
          Voice.meta := Some [("value"%string, Voice.MStr v)] |};
       {| Voice.type := "voice_match_false";
          Voice.t := clock (1 + Voice.clockReads s)%nat;
          Voice.meta := None |} ]).
Proof.
  unfold exec, Voice.submitCommand, Voice.setVoiceText, Voice.onVoiceSubmit,
    Voice.handleFeedback, Voice.log, Voice.Date_now, Voice.setEvents,
    Voice.setFeedback, Voice.setScheduledPosts, bind, get, modify.
  destruct s as [ev fb vt posts reads].
  cbn [Voice.events Voice.feedback Voice.voiceText Voice.scheduledPosts
       Voice.clockReads fst snd].
  destruct (Voice.isScheduleIntent v);
    cbn [Voice.events Voice.feedback Voice.voiceText Voice.scheduledPosts
         Voice.clockReads fst snd Voice.id Voice.title plus];
    rewrite <- ?app_assoc; reflexivity.
Qed.

Lemma submitCommand_clockReads (clock : nat -> Z) (v : jsstring)
    (s : Voice.App) :
  Voice.clockReads (exec (Voice.submitCommand clock v) s) =
  ((if Voice.isScheduleIntent v then 5 else 2) + Voice.clockReads s)%nat.
Proof.
  unfold exec, Voice.submitCommand, Voice.setVoiceText, Voice.onVoiceSubmit,
    Voice.handleFeedback, Voice.log, Voice.Date_now, Voice.setEvents,
    Voice.setFeedback, Voice.setScheduledPosts, bind, get, modify.
  destruct s as [ev fb vt posts reads].
  cbn [Voice.events Voice.feedback Voice.voiceText Voice.scheduledPosts
       Voice.clockReads fst snd].
  destruct (Voice.isScheduleIntent v); reflexivity.
Qed.

Lemma submitCommand_posts_length (clock : nat -> Z) (v : jsstring)
    (s : Voice.App) :
  List.length (Voice.scheduledPosts (exec (Voice.submitCommand clock v) s)) =
  ((if Voice.isScheduleIntent v then 1 else 0)
   + List.length (Voice.scheduledPosts s))%nat.
Proof.
  rewrite VoiceFacts.submitCommand_posts.
  destruct (Voice.isScheduleIntent v); reflexivity.
Qed.

Lemma countType_app (ty : string) (l l' : list Voice.LogEvent) :
  countType ty (l ++ l') = (countType ty l' + countType ty l)%nat.
Proof. unfold countType. rewrite filter_app, length_app. lia. Qed.

Lemma submitCommand_countType (clock : nat -> Z) (v : jsstring)
    (s : Voice.App) (ty : string) :
  countType ty (Voice.events (exec (Voice.submitCommand clock v) s)) =
  ((if Voice.isScheduleIntent v then
      (if String.eqb "voice_submit" ty then 1 else 0)
      + 2 * (if String.eqb "post_scheduled" ty then 1 else 0)
    else
      (if String.eqb "voice_submit" ty then 1 else 0)
      + (if String.eqb "voice_match_false" ty then 1 else 0))
   + countType ty (Voice.events s))%nat.
Proof.
  rewrite submitCommand_events, countType_app. f_equal.
  destruct (Voice.isScheduleIntent v); unfold countType;
    cbn [filter Voice.type];
    destruct (String.eqb "voice_submit" ty);
    destruct (String.eqb "post_scheduled" ty);
    destruct (String.eqb "voice_match_false" ty); reflexivity.
Qed.

Section Folds.

Variables S A : Type.
Variable step : S -> A -> S.

Lemma fold_left_measure (m : S -> nat) (d : A -> nat) :
  (forall s a, m (step s a) = (d a + m s)%nat) ->
  forall l s, m (fold_left step l s) = (list_sum (map d l) + m s)%nat.
Proof.
  intros Hstep l. unfold list_sum.
  induction l as [| a l IH]; intros s; cbn [fold_left map fold_right];
    [reflexivity |].
  rewrite IH, Hstep. lia.
Qed.

Lemma fold_left_invariant (Inv : S -> Prop) :
  (forall s a, Inv s -> Inv (step s a)) ->
  forall l s, Inv s -> Inv (fold_left step l s).
Proof.
  intros Hstep l. induction l as [| a l IH]; intros s Hs; cbn [fold_left];
    [exact Hs |].
  apply IH, Hstep, Hs.
Qed.

End Folds.

Lemma list_sum_indicator {A} (f : A -> bool) (l : list A) :
  list_sum (map (fun a => if f a then 1 else 0)%nat l)
  = List.length (filter f l).
Proof.
  unfold list_sum.
  induction l as [| a l IH]; cbn [map fold_right filter]; [reflexivity |].
  destruct (f a); cbn [List.length]; lia.
Qed.

Lemma list_sum_const {A} (c : nat) (l : list A) :
  list_sum (map (fun _ => c) l) = (c * List.length l)%nat.
Proof.
  unfold list_sum.
  induction l as [| a l IH]; cbn [map fold_right List.length]; lia.
Qed.

Lemma list_sum_plus {A} (f g : A -> nat) (l : list A) :
  list_sum (map (fun a => f a + g a)%nat l)
  = (list_sum (map f l) + list_sum (map g l))%nat.
Proof.
  unfold list_sum.
  induction l as [| a l IH]; cbn [map fold_right]; lia.
Qed.

Lemma list_sum_double {A} (f : A -> nat) (l : list A) :
  list_sum (map (fun a => 2 * f a)%nat l) = (2 * list_sum (map f l))%nat.
Proof.
  unfold list_sum.
  induction l as [| a l IH]; cbn [map fold_right]; lia.
Qed.

Lemma recognized_le (commands : list jsstring) :
  (recognized commands <= List.length commands)%nat.
Proof. unfold recognized. apply filter_length_le. Qed.

(** X10. The log of a session accounts for every command: each command
    is logged once as submitted; each recognized command creates one post
    and is logged twice as [post_scheduled]; each other command is logged
    once as [voice_match_false]. *)
Theorem session_log_counts (clock : nat -> Z) (commands : list jsstring) :
  List.length (Voice.scheduledPosts
                 (session clock commands Voice.initialApp))
    = recognized commands
  /\ countType "voice_submit"
       (Voice.events (session clock commands Voice.initialApp))
     = List.length commands
  /\ countType "post_scheduled"
       (Voice.events (session clock commands Voice.initialApp))
     = (2 * recognized commands)%nat
  /\ countType "voice_match_false"
       (Voice.events (session clock commands Voice.initialApp))
     = (List.length commands - recognized commands)%nat.
Proof.
  unfold session. repeat split.
  - rewrite (fold_left_measure _ _ _
               (fun s => List.length (Voice.scheduledPosts s))
               (fun v => if Voice.isScheduleIntent v then 1 else 0)%nat).
    + rewrite list_sum_indicator. unfold recognized.
      change (List.length (Voice.scheduledPosts Voice.initialApp))
        with 0%nat. lia.
    + intros s v. apply submitCommand_posts_length.
  - rewrite (fold_left_measure _ _ _
               (fun s => countType "voice_submit" (Voice.events s))
               (fun _ => 1%nat)).
    + rewrite list_sum_const.
      change (countType "voice_submit" (Voice.events Voice.initialApp))
        with 0%nat. lia.
    + intros s v. rewrite submitCommand_countType.
      destruct (Voice.isScheduleIntent v); reflexivity.
  - rewrite (fold_left_measure _ _ _
               (fun s => countType "post_scheduled" (Voice.events s))
               (fun v => 2 * (if Voice.isScheduleIntent v then 1 else 0))%nat).
    + rewrite list_sum_double, list_sum_indicator. unfold recognized.
      change (countType "post_scheduled" (Voice.events Voice.initialApp))
        with 0%nat. lia.
    + intros s v. rewrite submitCommand_countType.
      destruct (Voice.isScheduleIntent v); reflexivity.
  - rewrite (fold_left_measure _ _ _
               (fun s => countType "voice_match_false" (Voice.events s))
               (fun v => if negb (Voice.isScheduleIntent v) then 1 else 0)
                 %nat).
    + rewrite list_sum_indicator.
      change (countType "voice_match_false" (Voice.events Voice.initialApp))
        with 0%nat.
      pose proof (filter_length Voice.isScheduleIntent commands) as Hlen.
      unfold recognized. lia.
    + intros s v. rewrite submitCommand_countType.
      destruct (Voice.isScheduleIntent v); reflexivity.
Qed.

(** **** The order of the times *)

Lemma sorted_app_bound (b : Z) (l l' : list Z) :
  StronglySorted Z.le l -> Forall (fun x => x <= b) l ->
  StronglySorted Z.le l' -> Forall (fun y => b <= y) l' ->
  StronglySorted Z.le (l ++ l').
Proof.
  intros Hl Hb Hl' Hb'. induction Hl as [| x l Hl IH Hx]; cbn [app].
  - exact Hl'.
  - inversion Hb as [| ? ? Hxb Hlb]; subst. constructor.
    + apply IH. exact Hlb.
    + apply Forall_app. split; [exact Hx |].
      eapply Forall_impl; [| exact Hb']. intros y Hy. cbv beta in *. lia.
Qed.

Lemma ordered_submitCommand (clock : nat -> Z) (v : jsstring)
    (s : Voice.App) :
  monotone clock -> ordered clock s ->
  ordered clock (exec (Voice.submitCommand clock v) s).
Proof.
  intros Hmono [Hs Hb]. unfold ordered.
  rewrite submitCommand_events, submitCommand_clockReads, map_app.
  set (r := Voice.clockReads s) in *.
  assert (H01 : clock r <= clock (1 + r)%nat) by (apply Hmono; lia).
  assert (H03 : clock r <= clock (3 + r)%nat) by (apply Hmono; lia).
  assert (H34 : clock (3 + r)%nat <= clock (4 + r)%nat)
    by (apply Hmono; lia).
  assert (H45 : clock (4 + r)%nat <= clock (5 + r)%nat)
    by (apply Hmono; lia).
  assert (H12 : clock (1 + r)%nat <= clock (2 + r)%nat)
    by (apply Hmono; lia).
  destruct (Voice.isScheduleIntent v); cbn [map Voice.t]; split.
  - apply (sorted_app_bound (clock r)); [exact Hs | exact Hb | |].
    + repeat constructor; lia.
    + repeat constructor; lia.
  - apply Forall_app. split.
    + eapply Forall_impl; [| exact Hb]. intros x Hx. cbv beta in *. lia.
    + repeat constructor; lia.
  - apply (sorted_app_bound (clock r)); [exact Hs | exact Hb | |].
    + repeat constructor; lia.
    + repeat constructor; lia.
  - apply Forall_app. split.
    + eapply Forall_impl; [| exact Hb]. intros x Hx. cbv beta in *. lia.
    + repeat constructor; lia.
Qed.

(** X11. With a clock that never goes back, the log of every session is
    in the order of its times: no event has a time earlier than an event
    logged before it. *)
Theorem session_log_in_time_order (clock : nat -> Z)
    (commands : list jsstring) :
  monotone clock ->
  StronglySorted Z.le
    (map Voice.t (Voice.events (session clock commands Voice.initialApp))).
Proof.
  intros Hmono.
  apply (fold_left_invariant Voice.App jsstring
           (fun acc v => exec (Voice.submitCommand clock v) acc)
           (ordered clock)).
  - intros s v. apply ordered_submitCommand. exact Hmono.
  - split; constructor.
Qed.

Lemma session_log_in_time_order_witness :
  StronglySorted Z.le
    (map Voice.t
       (Voice.events
          (session TestModeApp.ticking
             [utf16 "schedule a post"; utf16 "hola"] Voice.initialApp))).
Proof.
  apply (session_log_in_time_order TestModeApp.ticking
           [utf16 "schedule a post"; utf16 "hola"]).
  intros i j Hij. unfold TestModeApp.ticking. lia.
Defined.

End EventLogFacts.

(* ===================================================================== *)
(** ** Properties of trimming and of the normalization of commands *)
(* ===================================================================== *)

Module TrimFacts.
Import JS.

Ltac split_tests :=
  repeat match goal with
  | |- context [(?a <=? ?b)%N] => destruct (N.leb_spec a b)
  | |- context [(?a =? ?b)%N] => destruct (N.eqb_spec a b)
  end.

Lemma whitespace_range (c : N) :
  isWhiteSpace c = true -> (c < 65 \/ c = 160 \/ 5760 <= c)%N.
Proof.
  unfold isWhiteSpace, isLineTerminator.
  rewrite !orb_true_iff, !andb_true_iff, !N.eqb_eq, !N.leb_le. lia.
Qed.

(** White space has no case, no decomposition and is no combining mark. *)
Lemma whitespace_plain (c : N) :
  isWhiteSpace c = true ->
  lower_unit c = c /\ nfd_unit c = [c] /\ isCombiningMark c = false.
Proof.
  intros H. apply whitespace_range in H. repeat split.
  - unfold lower_unit. split_tests; cbn [andb negb]; try reflexivity; lia.
  - unfold nfd_unit. split_tests; cbn [andb negb]; try reflexivity; lia.
  - unfold isCombiningMark. split_tests; cbn [andb]; try reflexivity; lia.
Qed.

Lemma trimStart_whitespace (ws s : jsstring) :
  Forall (fun c => isWhiteSpace c = true) ws ->
  trimStart (ws ++ s) = trimStart s.
Proof.
  induction 1 as [| c ws Hc _ IH]; cbn [app trimStart]; [reflexivity |].
  rewrite Hc. exact IH.
Qed.

Lemma trimStart_keeps_end (s ws : jsstring) :
  Forall (fun c => isWhiteSpace c = true) ws ->
  trimStart (s ++ ws) =
  match trimStart s with
  | [] => []
  | c :: l => (c :: l) ++ ws
  end.
Proof.
  intros Hws. induction s as [| c s IH]; cbn [app trimStart].
  - rewrite <- (app_nil_r ws). rewrite trimStart_whitespace by exact Hws.
    reflexivity.
  - destruct (isWhiteSpace c); [exact IH | reflexivity].
Qed.

Lemma trimEnd_whitespace (s ws : jsstring) :
  Forall (fun c => isWhiteSpace c = true) ws ->
  trimEnd (s ++ ws) = trimEnd s.
Proof.
  intros Hws. unfold trimEnd. rewrite rev_app_distr.
  rewrite trimStart_whitespace; [reflexivity |].
  apply Forall_rev. exact Hws.
Qed.

(** White space around a text does not survive [trim]. *)
Lemma trim_whitespace (ws ws' s : jsstring) :
  Forall (fun c => isWhiteSpace c = true) ws ->
  Forall (fun c => isWhiteSpace c = true) ws' ->
  trim (ws ++ s ++ ws') = trim s.
Proof.
  intros Hws Hws'. unfold trim.
  rewrite trimStart_whitespace by exact Hws.
  rewrite trimStart_keeps_end by exact Hws'.
  destruct (trimStart s) as [| c l]; [reflexivity |].
  apply trimEnd_whitespace. exact Hws'.
Qed.

Lemma trimStart_idempotent (s : jsstring) :
  trimStart (trimStart s) = trimStart s.
Proof.
  induction s as [| c s IH]; cbn [trimStart]; [reflexivity |].
  destruct (isWhiteSpace c) eqn:Hc; [exact IH |].
  cbn [trimStart]. rewrite Hc. reflexivity.
Qed.

Lemma trimStart_snoc_clean (s : jsstring) (c : N) :
  isWhiteSpace c = false ->
  trimStart (s ++ [c]) = trimStart s ++ [c].
Proof.
  intros Hc. induction s as [| x s IH]; cbn [app trimStart].
  - rewrite Hc. reflexivity.
  - destruct (isWhiteSpace x); [exact IH | reflexivity].
Qed.

Lemma trimEnd_cons_clean (c : N) (s : jsstring) :
  isWhiteSpace c = false ->
  trimEnd (c :: s) = c :: trimEnd s.
Proof.
  intros Hc. unfold trimEnd. cbn [rev].
  rewrite trimStart_snoc_clean by exact Hc.
  rewrite rev_app_distr. reflexivity.
Qed.

Lemma trimStart_clean_head (s : jsstring) :
  match trimStart s with
  | [] => True
  | c :: _ => isWhiteSpace c = false
  end.
Proof.
  induction s as [| c s IH]; cbn [trimStart]; [exact I |].
  destruct (isWhiteSpace c) eqn:Hc; [exact IH | exact Hc].
Qed.

(** Trimming twice is trimming once. *)
Lemma trim_idempotent (s : jsstring) : trim (trim s) = trim s.
Proof.
  unfold trim.
  assert (Hstart : trimStart (trimEnd (trimStart s)) = trimEnd (trimStart s)).
  { pose proof (trimStart_clean_head s) as Hh.
    destruct (trimStart s) as [| c l]; [reflexivity |].
    rewrite trimEnd_cons_clean by exact Hh.
    cbn [trimStart]. rewrite Hh. reflexivity. }
  rewrite Hstart. unfold trimEnd.
  rewrite rev_involutive, trimStart_idempotent. reflexivity.
Qed.

Lemma normalize_whitespace (ws ws' s : jsstring) :
  Forall (fun c => isWhiteSpace c = true) ws ->
  Forall (fun c => isWhiteSpace c = true) ws' ->
  Voice.normalize (ws ++ s ++ ws') = Voice.normalize s.
Proof.
  intros Hws Hws'.
  assert (Hplain : forall l, Forall (fun c => isWhiteSpace c = true) l ->
            stripCombiningMarks (normalizeNFD (toLowerCase l)) = l).
  { induction 1 as [| c l Hc _ IH]; [reflexivity |].
    destruct (whitespace_plain c Hc) as [Hl [Hn Hm]].
    unfold stripCombiningMarks, normalizeNFD, toLowerCase in *.
    cbn [map flat_map]. rewrite Hl, Hn. cbn [app filter].
    rewrite Hm. cbn [negb]. rewrite IH. reflexivity. }
  unfold Voice.normalize.
  assert (Hdist : forall a b,
            stripCombiningMarks (normalizeNFD (toLowerCase (a ++ b))) =
            stripCombiningMarks (normalizeNFD (toLowerCase a))
            ++ stripCombiningMarks (normalizeNFD (toLowerCase b))).
  { intros a b. unfold stripCombiningMarks, normalizeNFD, toLowerCase.
    rewrite map_app, flat_map_app, filter_app. reflexivity. }
  rewrite !Hdist, (Hplain ws Hws), (Hplain ws' Hws').
  apply trim_whitespace; assumption.
Qed.

(** X12. White space before and after a command does not matter: for
    a text of Basic Latin and Latin-1, the repertoire of [toLowerCase]
    and [normalizeNFD], the command is recognized with the white space
    exactly when it is recognized without it. *)
Theorem intent_ignores_surrounding_whitespace (ws ws' s : jsstring) :
  isLatin1 (ws ++ s ++ ws') = true ->
  Forall (fun c => isWhiteSpace c = true) ws ->
  Forall (fun c => isWhiteSpace c = true) ws' ->
  Voice.isScheduleIntent (ws ++ s ++ ws') = Voice.isScheduleIntent s.
Proof.
  intros _ Hws Hws'. unfold Voice.isScheduleIntent. cbv zeta.
  rewrite normalize_whitespace by assumption. reflexivity.
Qed.

Lemma intent_ignores_surrounding_whitespace_witness :
  Voice.isScheduleIntent
    ([9; 32]%N ++ utf16 "Programar Post" ++ [32; 10; 160]%N)
  = Voice.isScheduleIntent (utf16 "Programar Post").
Proof.
  apply (intent_ignores_surrounding_whitespace [9; 32]%N [32; 10; 160]%N
           (utf16 "Programar Post")).
  - reflexivity.
  - repeat constructor.
  - repeat constructor.
Defined.

End TrimFacts.

(* ===================================================================== *)
(** ** Properties of sessions of the save form *)
(* ===================================================================== *)

Module SchedulerRunFacts.
Import JS StateM Scheduler SchedulerRuns.

Lemma fold_left_prepends {S A B : Type} (step : S -> A -> S)
    (f : S -> list B) (g : A -> B) :
  (forall s a, f (step s a) = g a :: f s) ->
  forall l s, f (fold_left step l s) = rev (map g l) ++ f s.
Proof.
  intros Hstep l. induction l as [| a l IH]; intros s;
    cbn [fold_left map rev]; [reflexivity |].
  rewrite IH, Hstep, <- app_assoc. reflexivity.
Qed.

(** X13. The list of posts is kept most recent first and nothing in it is
    ever lost or changed: after a session it consists of what each form
    is stored as, the last saved first, followed by the posts there were
    before. *)
Theorem session_posts_in_order (clock : nat -> Z)
    (Date_getTime : jsstring -> timeValue)
    (forms : list (jsstring * jsstring * jsstring)) (s : App) :
  map content (scheduledPosts (session clock Date_getTime forms s)) =
  rev (map (stored Date_getTime) forms) ++ map content (scheduledPosts s)
  /\ List.length (scheduledPosts (session clock Date_getTime forms s)) =
     (List.length forms + List.length (scheduledPosts s))%nat.
Proof.
  assert (H : map content
                (scheduledPosts (session clock Date_getTime forms s)) =
              rev (map (stored Date_getTime) forms)
              ++ map content (scheduledPosts s)).
  { unfold session.
    apply (fold_left_prepends
             (fun acc form =>
                exec (save clock Date_getTime (fst (fst form))
                        (snd (fst form)) (snd form)) acc)
             (fun a => map content (scheduledPosts a))
             (stored Date_getTime)).
    intros a form. rewrite SchedulerFacts.save_posts. reflexivity. }
  split; [exact H |].
  apply (f_equal (@List.length _)) in H.
  rewrite length_app, length_rev, !length_map in H. exact H.
Qed.

Lemma placeholder_tidy :
  utf16 "Publicación programada" <> []
  /\ trim (utf16 "Publicación programada") = utf16 "Publicación programada".
Proof. split; [discriminate | vm_compute; reflexivity]. Qed.

Lemma save_tidy (clock : nat -> Z) (Date_getTime : jsstring -> timeValue)
    (titleText descriptionText whenText : jsstring) (s : App) :
  Forall tidy (scheduledPosts s) ->
  Forall tidy
    (scheduledPosts
       (exec (save clock Date_getTime titleText descriptionText whenText) s)).
Proof.
  intros Hs. rewrite SchedulerFacts.save_posts. constructor; [| exact Hs].
  unfold tidy. cbn [title description].
  destruct (trim titleText) as [| c l] eqn:Ht; cbn [orElse].
  - destruct placeholder_tidy as [H1 H2].
    split; [exact H1 |]. split; [exact H2 |].
    apply TrimFacts.trim_idempotent.
  - split; [discriminate |]. split.
    + rewrite <- Ht. apply TrimFacts.trim_idempotent.
    + apply TrimFacts.trim_idempotent.
Qed.

(** X14. Every post that the save form stores has a title that is not
    empty and has no white space around it, and a description with no
    white space around it, whatever was typed. *)
Theorem session_posts_tidy (clock : nat -> Z)
    (Date_getTime : jsstring -> timeValue)
    (forms : list (jsstring * jsstring * jsstring)) (local0 : jsstring) :
  Forall tidy
    (scheduledPosts (session clock Date_getTime forms (initialApp local0))).
Proof.
  apply (EventLogFacts.fold_left_invariant App
           (jsstring * jsstring * jsstring)
           (fun acc form =>
              exec (save clock Date_getTime (fst (fst form))
                      (snd (fst form)) (snd form)) acc)
           (fun a => Forall tidy (scheduledPosts a))).
  - intros a form. apply save_tidy.
  - constructor.
Qed.

End SchedulerRunFacts.

(* ===================================================================== *)
(** ** Properties of the shell with the test-mode panel *)
(* ===================================================================== *)

Module TestModeAppFacts.
Import JS StateM TestModeApp.

Lemma panelEvents_submitCommand (clock : nat -> Z) (v : jsstring)
    (a : Voice.App) :
  TestMode.lastOf (panelEvents (exec (Voice.submitCommand clock v) a)) =
  Some (if Voice.isScheduleIntent v
        then {| TestMode.type := "post_scheduled";
                TestMode.t := clock (4 + Voice.clockReads a)%nat |}
        else {| TestMode.type := "voice_match_false";
                TestMode.t := clock (1 + Voice.clockReads a)%nat |})
  /\ (List.length (Voice.events (exec (Voice.submitCommand clock v) a))
      =? List.length (Voice.events a))%nat = false.
Proof.
  unfold panelEvents. rewrite EventLogFacts.submitCommand_events. split.
  - rewrite map_app. unfold TestMode.lastOf. rewrite rev_app_distr.
    destruct (Voice.isScheduleIntent v); reflexivity.
  - rewrite length_app. apply Nat.eqb_neq.
    destruct (Voice.isScheduleIntent v); cbn [List.length]; lia.
Qed.

(** X15. With the test-mode panel on and its voice task Running, a
    recognized command completes the task with the time of the last of
    the three events that the command logs as its end time; a command
    that is not recognized leaves the task Running. *)
Theorem command_completes_voice_task (clock : nat -> Z) (v : jsstring)
    (sh : Shell) (p : TestMode.Panel) :
  panel sh = Some p ->
  TestMode.phase (TestMode.get TestMode.voice (TestMode.taskState p))
    = Some TestMode.Running ->
  exists p' : TestMode.Panel,
    panel (handle (Voice.submitCommand clock v) sh) = Some p'
    /\ TestMode.events p'
       = panelEvents (app (handle (Voice.submitCommand clock v) sh))
    /\ TestMode.get TestMode.voice (TestMode.taskState p') =
       if Voice.isScheduleIntent v then
         {| TestMode.running := false;
            TestMode.startT :=
              TestMode.startT
                (TestMode.get TestMode.voice (TestMode.taskState p));
            TestMode.endT := Some (clock (4 + Voice.clockReads (app sh))%nat)
         |}
       else TestMode.get TestMode.voice (TestMode.taskState p).
Proof.
  intros Hp Hrun. unfold handle. cbv zeta. rewrite Hp.
  destruct (panelEvents_submitCommand clock v (app sh)) as [Hlast Hlen].
  rewrite Hlen. eexists. split; [reflexivity |]. cbn [app]. split.
  - rewrite TestModeFacts.commit_events. reflexivity.
  - rewrite TestModeFacts.commit_taskState.
    cbn [TestMode.withEvents TestMode.events TestMode.taskState].
    pose (task := {| TestMode.key := TestMode.voice;
                     TestMode.label :=
                       utf16 "Comando correcto (programar publicación)";
                     TestMode.successEvents :=
                       ["post_scheduled"; "voice_match_true"]%string |}).
    assert (Hin : In task TestMode.TASKS)
      by (unfold TestMode.TASKS, task; simpl; tauto).
    change TestMode.voice with (TestMode.key task).
    rewrite (TestModeFacts.effect_on_task _ _ _ task Hlast Hin).
    destruct (TestModeFacts.phase_running _ Hrun) as [s [Hr [Hs He]]].
    change (TestMode.key task) with TestMode.voice.
    unfold TestMode.completes, TestMode.completed. rewrite Hr, Hs, He.
    destruct (Voice.isScheduleIntent v); reflexivity.
Qed.

Lemma command_completes_voice_task_witness :
  exists p' : TestMode.Panel,
    panel (handle (Voice.submitCommand ticking (utf16 "schedule a post"))
             voice_task_started) = Some p'
    /\ TestMode.events p'
       = panelEvents
           (app (handle (Voice.submitCommand ticking
                           (utf16 "schedule a post")) voice_task_started))
    /\ TestMode.get TestMode.voice (TestMode.taskState p') =
       if Voice.isScheduleIntent (utf16 "schedule a post") then
         {| TestMode.running := false;
            TestMode.startT := Some 100;
            TestMode.endT := Some 105 |}
       else {| TestMode.running := true;
               TestMode.startT := Some 100;
               TestMode.endT := None |}.
Proof.
  apply (command_completes_voice_task ticking (utf16 "schedule a post")
           voice_task_started
           (TestMode.commit
              (TestMode.startTask TestMode.voice 100
                 (TestMode.commit (TestMode.mount []))))).
  - reflexivity.
  - reflexivity.
Defined.

End TestModeAppFacts.

(* ===================================================================== *)
(** ** Properties of preview and export *)
(* ===================================================================== *)

Module PhotoExportFacts.
Import JS PhotoEdit PhotoExport.

Lemma str_eqb_eq (a b : jsstring) : str_eqb a b = true <-> a = b.
Proof.
  revert b. induction a as [| x a IH]; intros [| y b]; cbn [str_eqb];
    try (split; [discriminate | discriminate]); [tauto |].
  rewrite andb_true_iff, N.eqb_eq, IH. split.
  - intros [-> ->]. reflexivity.
  - intros H. injection H as -> ->. split; reflexivity.
Qed.

Lemma str_eqb_refl (a : jsstring) : str_eqb a a = true.
Proof. apply str_eqb_eq. reflexivity. Qed.

Lemma str_eqb_neq (a b : jsstring) : a <> b -> str_eqb a b = false.
Proof.
  intros H. destruct (str_eqb a b) eqn:E; [| reflexivity].
  apply str_eqb_eq in E. contradiction.
Qed.

Section Platform.

Variable decodeImage : jsstring -> option (Z * Z).
Variable context2d : bool.
Variable encodePNG : Canvas -> list N.
Variable blobURL : nat -> jsstring.
Variable typeErrorText : jsstring.

Lemma produce_document (r : Request) (b : Browser) :
  liveURLs (snd (produce decodeImage context2d encodePNG r b)) = liveURLs b
  /\ minted (snd (produce decodeImage context2d encodePNG r b)) = minted b
  /\ downloads (snd (produce decodeImage context2d encodePNG r b))
     = downloads b.
Proof.
  unfold produce.
  destruct (getCroppedImg decodeImage context2d encodePNG (req_imageSrc r)
              (req_area r) (req_rotation r) (req_filterCss r) (document b))
    as [[[blob |] | e] d]; repeat split.
Qed.

Lemma produce_ok (r : Request) (b : Browser) :
  succeeds decodeImage context2d r ->
  exists blob : Blob,
    pixelWidth blob = dimension 300 (width (req_area r))
    /\ pixelHeight blob = dimension 150 (height (req_area r))
    /\ forall b' : Browser,
         exists d : Document,
           produce decodeImage context2d encodePNG r b'
           = (inl blob, withDocument d b').
Proof.
  intros [Hdec [Hctx [Hw Hh]]]. unfold produce.
  destruct (decodeImage (req_imageSrc r)) as [[w h] |] eqn:Hd;
    [| congruence].
  eexists. split; [| split]; cycle 2.
  - intros b'. rewrite PhotoEditFacts.getCroppedImg_run, Hd, Hctx.
    cbv zeta. unfold drawnCanvas at 1 2. cbn [canvasWidth canvasHeight].
    destruct (Z.ltb_spec 0 (dimension 300 (width (req_area r))))
      as [_ | ?]; [| lia].
    destruct (Z.ltb_spec 0 (dimension 150 (height (req_area r))))
      as [_ | ?]; [| lia].
    cbn [andb]. eexists. reflexivity.
  - reflexivity.
  - reflexivity.
Qed.

Lemma fails_not_succeeds (r : Request) :
  fails decodeImage context2d r -> ~ succeeds decodeImage context2d r.
Proof.
  unfold fails, succeeds. intros Hf [Hdec [Hctx [Hw Hh]]].
  destruct Hf as [H | [H | [H | H]]]; [congruence | congruence | lia | lia].
Qed.

Lemma produce_fails (r : Request) (b : Browser) :
  ~ succeeds decodeImage context2d r ->
  exists (f : Failure) (b' : Browser),
    produce decodeImage context2d encodePNG r b = (inr f, b').
Proof.
  intros Hno. unfold produce. rewrite PhotoEditFacts.getCroppedImg_run.
  destruct (decodeImage (req_imageSrc r)) as [[w h] |] eqn:Hd.
  - destruct context2d eqn:Hctx.
    + cbv zeta. unfold drawnCanvas at 1 2. cbn [canvasWidth canvasHeight].
      destruct (Z.ltb_spec 0 (dimension 300 (width (req_area r))));
        destruct (Z.ltb_spec 0 (dimension 150 (height (req_area r))));
        cbn [andb]; try (eexists; eexists; reflexivity).
      contradiction Hno. unfold succeeds. rewrite Hd.
      repeat split; try assumption. discriminate.
    + eexists. eexists. reflexivity.
  - eexists. eexists. reflexivity.
Qed.

Hypothesis blobURL_inj : forall n m : nat, blobURL n = blobURL m -> n = m.
Hypothesis blobURL_nonempty : forall n : nat, blobURL n <> [].

Lemma previewOnly_browser (s : EditorState) (b b' : Browser) :
  liveURLs b' = liveURLs b -> (minted b <= minted b')%nat ->
  PhotoExport.previewOnly blobURL (s, b) ->
  PhotoExport.previewOnly blobURL (s, b').
Proof.
  unfold PhotoExport.previewOnly. cbn [fst snd]. intros Hl Hm.
  destruct (previewUrl s) as [u |].
  - intros [k [blob [Hk [Hu Hlive]]]]. exists k, blob.
    rewrite Hl. repeat split; [lia | exact Hu | exact Hlive].
  - rewrite Hl. tauto.
Qed.

Lemma fresh_not_live (s : EditorState) (b : Browser) :
  PhotoExport.previewOnly blobURL (s, b) ->
  List.filter (fun e => negb (str_eqb (fst e) (blobURL (minted b))))
    (liveURLs b) = liveURLs b.
Proof.
  unfold PhotoExport.previewOnly. cbn [fst snd].
  destruct (previewUrl s) as [u |].
  - intros [k [blob [Hk [Hu Hlive]]]]. rewrite Hlive. cbn [List.filter fst].
    rewrite str_eqb_neq; [reflexivity |].
    rewrite Hu. intros H. apply blobURL_inj in H. lia.
  - intros ->. reflexivity.
Qed.

Lemma finishPreview_previewOnly (r : Request) (s : EditorState)
    (b : Browser) :
  req_previewUrl r = previewUrl s ->
  PhotoExport.previewOnly blobURL (s, b) ->
  PhotoExport.previewOnly blobURL
    (fst (fst (PhotoExport.finishPreview decodeImage context2d encodePNG
                 blobURL typeErrorText r s b)),
     snd (PhotoExport.finishPreview decodeImage context2d encodePNG
            blobURL typeErrorText r s b)).
Proof.
  intros Hr Hinv. unfold PhotoExport.finishPreview.
  pose proof (produce_document r b) as [Hl [Hm Hd]].
  destruct (PhotoExport.produce decodeImage context2d encodePNG r b)
    as [[blob | f] b1]; cbn [fst snd] in *.
  - unfold createObjectURL. rewrite Hr.
    unfold PhotoExport.previewOnly in *. cbn [fst snd] in *.
    destruct (previewUrl s) as [u |].
    + destruct Hinv as [k [blob0 [Hk [Hu Hlive]]]].
      destruct u as [| c u'].
      { exfalso. exact (blobURL_nonempty k (eq_sym Hu)). }
      cbn [fst snd setPreviewUrl previewUrl revokeObjectURL liveURLs minted].
      exists (minted b1), blob. rewrite Hl, Hlive, Hm.
      cbn [List.filter fst].
      rewrite str_eqb_refl. cbn [negb].
      rewrite str_eqb_neq.
      * cbn [negb]. repeat split. lia.
      * rewrite Hu. intros H. apply blobURL_inj in H. lia.
    + cbn [fst snd setPreviewUrl previewUrl liveURLs minted].
      exists (minted b1), blob. rewrite Hl, Hinv. repeat split. lia.
  - apply (previewOnly_browser s b b1); [exact Hl | lia | exact Hinv].
Qed.

Lemma finishExport_previewOnly (r : Request) (s : EditorState)
    (b : Browser) :
  PhotoExport.previewOnly blobURL (s, b) ->
  PhotoExport.previewOnly blobURL
    (fst (fst (PhotoExport.finishExport decodeImage context2d encodePNG
                 blobURL typeErrorText r s b)),
     snd (PhotoExport.finishExport decodeImage context2d encodePNG
            blobURL typeErrorText r s b)).
Proof.
  intros Hinv. unfold PhotoExport.finishExport.
  pose proof (produce_document r b) as [Hl [Hm Hd]].
  destruct (PhotoExport.produce decodeImage context2d encodePNG r b)
    as [[blob | f] b1]; cbn [fst snd] in *.
  - unfold createObjectURL.
    cbn [fst snd].
    apply (previewOnly_browser s b).
    + cbn [revokeObjectURL clickDownload liveURLs minted List.filter fst].
      rewrite str_eqb_refl. cbn [negb]. rewrite Hl, Hm.
      apply (fresh_not_live s b Hinv).
    + cbn [revokeObjectURL clickDownload minted]. lia.
    + exact Hinv.
  - apply (previewOnly_browser s b b1); [exact Hl | lia | exact Hinv].
Qed.

Lemma request_previewUrl (s : EditorState) (r : Request) :
  request s = Some r -> req_previewUrl r = previewUrl s.
Proof.
  unfold request. destruct (imageSrc s) as [[| u url] |];
    destruct (croppedAreaPixels s); try discriminate.
  intros H. injection H as <-. reflexivity.
Qed.

Lemma act_previewOnly (a : Action) (sb : EditorState * Browser) :
  PhotoExport.previewOnly blobURL sb ->
  PhotoExport.previewOnly blobURL
    (act decodeImage context2d encodePNG blobURL typeErrorText a sb).
Proof.
  destruct sb as [s b]. intros Hinv.
  destruct a; cbn [act]; try exact Hinv.
  - unfold onApplyCropPreview.
    destruct (request s) as [r |] eqn:Hr; [| exact Hinv].
    pose proof (finishPreview_previewOnly r s b
                  (request_previewUrl s r Hr) Hinv) as H.
    destruct (PhotoExport.finishPreview decodeImage context2d encodePNG
                blobURL typeErrorText r s b) as [[s' calls] b'].
    exact H.
  - unfold onExport.
    destruct (request s) as [r |] eqn:Hr; [| exact Hinv].
    pose proof (finishExport_previewOnly r s b Hinv) as H.
    destruct (PhotoExport.finishExport decodeImage context2d encodePNG
                blobURL typeErrorText r s b) as [[s' calls] b'].
    exact H.
Qed.

(** X17. Two presses of the preview button that overlap, both made
    before the first has settled, leak an object URL: both close over the
    same previous preview, so the second revokes that one again and not
    the URL that the first has created, which stays live although the
    preview no longer shows it. *)
Theorem overlapping_previews_leak (s : EditorState) (b : Browser)
    (r : Request) :
  request s = Some r ->
  succeeds decodeImage context2d r ->
  PhotoExport.previewOnly blobURL (s, b) ->
  previewUrl
    (fst (fst (PhotoExport.finishPreview decodeImage context2d encodePNG
                 blobURL typeErrorText r
                 (fst (fst (PhotoExport.finishPreview decodeImage context2d
                              encodePNG blobURL typeErrorText r s b)))
                 (snd (PhotoExport.finishPreview decodeImage context2d
                         encodePNG blobURL typeErrorText r s b)))))
  = Some (blobURL (S (minted b)))
  /\ map fst
       (liveURLs
          (snd (PhotoExport.finishPreview decodeImage context2d encodePNG
                  blobURL typeErrorText r
                  (fst (fst (PhotoExport.finishPreview decodeImage
                               context2d encodePNG blobURL typeErrorText
                               r s b)))
                  (snd (PhotoExport.finishPreview decodeImage context2d
                          encodePNG blobURL typeErrorText r s b)))))
     = [blobURL (S (minted b)); blobURL (minted b)].
Proof.
  intros Hreq Hok Hinv.
  destruct (produce_ok r b Hok) as [blob [_ [_ Hprod]]].
  pose proof (request_previewUrl s r Hreq) as Hr.
  unfold PhotoExport.finishPreview.
  destruct (Hprod b) as [d Hd]. rewrite Hd.
  unfold createObjectURL, withDocument; cbn [fst snd liveURLs minted document
    downloads].
  rewrite Hr.
  unfold PhotoExport.previewOnly in Hinv. cbn [fst snd] in Hinv.
  destruct (previewUrl s) as [u |].
  - destruct Hinv as [k [blob0 [Hk [Hu Hlive]]]].
    destruct u as [| c u'].
    { exfalso. exact (blobURL_nonempty k (eq_sym Hu)). }
    assert (Hne0 : str_eqb (blobURL (minted b)) (c :: u') = false).
    { apply str_eqb_neq. rewrite Hu. intros H.
      apply blobURL_inj in H. lia. }
    assert (Hne1 : str_eqb (blobURL (S (minted b))) (c :: u') = false).
    { apply str_eqb_neq. rewrite Hu. intros H.
      apply blobURL_inj in H. lia. }
    cbn [fst snd].
    match goal with
    | |- context [PhotoExport.produce _ _ _ r ?b1] =>
        destruct (Hprod b1) as [d1 Hd1]; rewrite Hd1
    end.
    cbn [fst snd setPreviewUrl previewUrl revokeObjectURL withDocument
         liveURLs minted document downloads].
    rewrite Hlive. cbn [List.filter fst].
    rewrite Hne0, str_eqb_refl. cbn [negb List.filter fst].
    rewrite Hne1, Hne0. cbn [negb map fst]. split; reflexivity.
  - cbn [fst snd].
    match goal with
    | |- context [PhotoExport.produce _ _ _ r ?b1] =>
        destruct (Hprod b1) as [d1 Hd1]; rewrite Hd1
    end.
    cbn [fst snd setPreviewUrl previewUrl revokeObjectURL withDocument
         liveURLs minted document downloads].
    rewrite Hinv. cbn [map fst]. split; reflexivity.
Qed.

(** X18. When the pipeline fails, because the image does not decode, no
    2D context is to be had or the canvas has no pixels, as for an empty
    crop area, the preview and the export change nothing: the editor state, the live object
    URLs and the downloads stay as they are, and the only effect is one
    [photo_preview_error] or [photo_export_error] feedback. *)
Theorem failed_pipeline_changes_nothing (s : EditorState) (b : Browser)
    (r : Request) :
  request s = Some r ->
  fails decodeImage context2d r ->
  (fst (fst (onApplyCropPreview decodeImage context2d encodePNG blobURL
               typeErrorText s b)) = s
   /\ liveURLs (snd (onApplyCropPreview decodeImage context2d encodePNG
                       blobURL typeErrorText s b)) = liveURLs b
   /\ downloads (snd (onApplyCropPreview decodeImage context2d encodePNG
                        blobURL typeErrorText s b)) = downloads b
   /\ exists text : jsstring,
        snd (fst (onApplyCropPreview decodeImage context2d encodePNG
                    blobURL typeErrorText s b))
        = [onFeedback (utf16 "Error al generar vista previa")
             "photo_preview_error"
             (Some [("error"%string, MStr text)])])
  /\ (fst (fst (onExport decodeImage context2d encodePNG blobURL
                  typeErrorText s b)) = s
      /\ liveURLs (snd (onExport decodeImage context2d encodePNG blobURL
                          typeErrorText s b)) = liveURLs b
      /\ downloads (snd (onExport decodeImage context2d encodePNG blobURL
                           typeErrorText s b)) = downloads b
      /\ exists text : jsstring,
           snd (fst (onExport decodeImage context2d encodePNG blobURL
                       typeErrorText s b))
           = [onFeedback (utf16 "Error al exportar") "photo_export_error"
                (Some [("error"%string, MStr text)])]).
Proof.
  intros Hreq Hfail.
  destruct (produce_fails r b (fails_not_succeeds r Hfail)) as [f [b' Hf]].
  pose proof (produce_document r b) as [Hl [_ Hd]]. rewrite Hf in Hl, Hd.
  cbn [snd] in Hl, Hd.
  unfold onApplyCropPreview, onExport. rewrite Hreq.
  unfold PhotoExport.finishPreview, PhotoExport.finishExport. rewrite Hf.
  cbn [fst snd]. split; (split; [reflexivity |]; split; [exact Hl |];
    split; [exact Hd |]; eexists; reflexivity).
Qed.

(** X19. An export that succeeds offers exactly one file for download,
    the rasterized image under the name [mediaplay_edited.png]; the image
    has the size of the canvas, which is the size of the crop area when
    the width and the height of that are within the range of a canvas
    dimension. The export leaves the editor state and the preview as they
    are and revokes the object URL it has created. *)
Theorem export_downloads_the_image (s : EditorState) (b : Browser)
    (r : Request) :
  request s = Some r ->
  succeeds decodeImage context2d r ->
  PhotoExport.previewOnly blobURL (s, b) ->
  fst (fst (onExport decodeImage context2d encodePNG blobURL
              typeErrorText s b)) = s
  /\ snd (fst (onExport decodeImage context2d encodePNG blobURL
                 typeErrorText s b))
     = [onFeedback (utf16 "Edición exportada") "photo_exported" None]
  /\ liveURLs (snd (onExport decodeImage context2d encodePNG blobURL
                      typeErrorText s b)) = liveURLs b
  /\ exists blob : Blob,
       downloads (snd (onExport decodeImage context2d encodePNG blobURL
                         typeErrorText s b))
       = downloads b ++ [(utf16 "mediaplay_edited.png", Some blob)]
       /\ pixelWidth blob = dimension 300 (width (req_area r))
       /\ pixelHeight blob = dimension 150 (height (req_area r))
       /\ (0 <= width (req_area r) <= 2147483647 ->
           0 <= height (req_area r) <= 2147483647 ->
           pixelWidth blob = width (req_area r)
           /\ pixelHeight blob = height (req_area r)).
Proof.
  intros Hreq Hok Hinv.
  destruct (produce_ok r b Hok) as [blob [Hw [Hh Hprod]]].
  destruct (Hprod b) as [d Hd].
  unfold onExport. rewrite Hreq. unfold PhotoExport.finishExport.
  rewrite Hd. unfold createObjectURL.
  cbn [fst snd revokeObjectURL clickDownload withDocument liveURLs minted
       document downloads List.filter List.find option_map].
  rewrite str_eqb_refl. cbn [negb option_map snd].
  split; [reflexivity |]. split; [reflexivity |]. split.
  - apply (fresh_not_live s b Hinv).
  - exists blob. split; [reflexivity |]. split; [exact Hw |].
    split; [exact Hh |]. intros Hrw Hrh. rewrite Hw, Hh.
    split; apply PhotoEditFacts.dimension_in_range; assumption.
Qed.

End Platform.

(** X16. However the user uploads, crops, turns, filters, previews and
    exports, one thing after the other, at most one object URL is live at
    any time, and it is the URL of the preview that is shown: every
    export revokes its URL, and every preview revokes the one it
    replaces. The browser is taken to give every object URL a text of
    its own that is not empty. *)
Theorem object_urls_are_released
    (decodeImage : jsstring -> option (Z * Z)) (context2d : bool)
    (encodePNG : Canvas -> list N) (blobURL : nat -> jsstring)
    (typeErrorText : jsstring) (actions : list Action) :
  (forall n m : nat, blobURL n = blobURL m -> n = m) ->
  (forall n : nat, blobURL n <> []) ->
  previewOnly blobURL
    (actAll decodeImage context2d encodePNG blobURL typeErrorText actions
       (initialState, emptyBrowser)).
Proof.
  intros Hinj Hne.
  apply (EventLogFacts.fold_left_invariant (EditorState * Browser) Action
           (fun acc a =>
              act decodeImage context2d encodePNG blobURL typeErrorText
                a acc)
           (previewOnly blobURL)).
  - intros sb a. apply act_previewOnly; assumption.
  - reflexivity.
Qed.

Lemma numberedURL_inj (n m : nat) :
  numberedURL n = numberedURL m -> n = m.
Proof.
  unfold numberedURL. intros H. apply app_inv_head in H.
  apply JSFacts.String_of_number_inj in H. lia.
Qed.

Lemma numberedURL_nonempty (n : nat) : numberedURL n <> [].
Proof. unfold numberedURL. discriminate. Qed.

Lemma object_urls_are_released_witness :
  previewOnly numberedURL
    (actAll decodesAll true (fun _ => []) numberedURL []
       [Upload first_file; CommitCrop area100; Preview; Export; Preview]
       (initialState, emptyBrowser)).
Proof.
  apply (object_urls_are_released decodesAll true (fun _ => []) numberedURL
           [] [Upload first_file; CommitCrop area100; Preview; Export;
               Preview]).
  - exact numberedURL_inj.
  - exact numberedURL_nonempty.
Defined.

(** The example state is what an upload, a committed crop area and a
    preview lead to. *)
Lemma previewed_reached :
  actAll decodesAll true (fun _ => []) numberedURL []
    [Upload first_file; CommitCrop area100; Preview]
    (initialState, emptyBrowser)
  = (previewed_state, previewed_browser).
Proof. vm_compute. reflexivity. Qed.

Lemma previewed_previewOnly :
  previewOnly numberedURL (previewed_state, previewed_browser).
Proof.
  unfold previewOnly. cbn [fst snd previewed_state previewUrl].
  exists 0%nat, previewed_blob.
  cbn [previewed_browser minted liveURLs]. repeat split. lia.
Qed.

Lemma previewed_succeeds : succeeds decodesAll true previewed_request.
Proof.
  unfold succeeds, decodesAll.
  cbn [previewed_request req_area area100 width height].
  rewrite !PhotoEditFacts.dimension_in_range by lia.
  split; [discriminate |]. split; [reflexivity |]. split; lia.
Qed.

Lemma overlapping_previews_leak_witness :
  previewUrl
    (fst (fst (finishPreview decodesAll true (fun _ => []) numberedURL []
                 previewed_request
                 (fst (fst (finishPreview decodesAll true (fun _ => [])
                              numberedURL [] previewed_request
                              previewed_state previewed_browser)))
                 (snd (finishPreview decodesAll true (fun _ => [])
                         numberedURL [] previewed_request
                         previewed_state previewed_browser)))))
  = Some (numberedURL 2)
  /\ map fst
       (liveURLs
          (snd (finishPreview decodesAll true (fun _ => []) numberedURL []
                  previewed_request
                  (fst (fst (finishPreview decodesAll true (fun _ => [])
                               numberedURL [] previewed_request
                               previewed_state previewed_browser)))
                  (snd (finishPreview decodesAll true (fun _ => [])
                          numberedURL [] previewed_request
                          previewed_state previewed_browser)))))
     = [numberedURL 2; numberedURL 1].
Proof.
  apply (overlapping_previews_leak decodesAll true (fun _ => []) numberedURL
           [] numberedURL_inj numberedURL_nonempty
           previewed_state previewed_browser previewed_request).
  - vm_compute. reflexivity.
  - exact previewed_succeeds.
  - exact previewed_previewOnly.
Defined.

Lemma failed_pipeline_changes_nothing_witness :
  (fst (fst (onApplyCropPreview decodesNone true (fun _ => []) numberedURL
               [] previewed_state previewed_browser)) = previewed_state
   /\ liveURLs (snd (onApplyCropPreview decodesNone true (fun _ => [])
                       numberedURL [] previewed_state previewed_browser))
      = liveURLs previewed_browser
   /\ downloads (snd (onApplyCropPreview decodesNone true (fun _ => [])
                        numberedURL [] previewed_state previewed_browser))
      = downloads previewed_browser
   /\ exists text : jsstring,
        snd (fst (onApplyCropPreview decodesNone true (fun _ => [])
                    numberedURL [] previewed_state previewed_browser))
        = [onFeedback (utf16 "Error al generar vista previa")
             "photo_preview_error"
             (Some [("error"%string, MStr text)])])
  /\ (fst (fst (onExport decodesNone true (fun _ => []) numberedURL []
                  previewed_state previewed_browser)) = previewed_state
      /\ liveURLs (snd (onExport decodesNone true (fun _ => []) numberedURL
                          [] previewed_state previewed_browser))
         = liveURLs previewed_browser
      /\ downloads (snd (onExport decodesNone true (fun _ => [])
                           numberedURL [] previewed_state
                           previewed_browser))
         = downloads previewed_browser
      /\ exists text : jsstring,
           snd (fst (onExport decodesNone true (fun _ => []) numberedURL []
                       previewed_state previewed_browser))
           = [onFeedback (utf16 "Error al exportar") "photo_export_error"
                (Some [("error"%string, MStr text)])]).
Proof.
  apply (failed_pipeline_changes_nothing decodesNone true (fun _ => [])
           numberedURL [] previewed_state previewed_browser
           previewed_request).
  - vm_compute. reflexivity.
  - left. reflexivity.
Defined.

Lemma export_downloads_the_image_witness :
  fst (fst (onExport decodesAll true (fun _ => []) numberedURL []
              previewed_state previewed_browser)) = previewed_state
  /\ snd (fst (onExport decodesAll true (fun _ => []) numberedURL []
                 previewed_state previewed_browser))
     = [onFeedback (utf16 "Edición exportada") "photo_exported" None]
  /\ liveURLs (snd (onExport decodesAll true (fun _ => []) numberedURL []
                      previewed_state previewed_browser))
     = liveURLs previewed_browser
  /\ exists blob : Blob,
       downloads (snd (onExport decodesAll true (fun _ => []) numberedURL
                         [] previewed_state previewed_browser))
       = downloads previewed_browser
         ++ [(utf16 "mediaplay_edited.png", Some blob)]
       /\ pixelWidth blob = dimension 300 100
       /\ pixelHeight blob = dimension 150 100
       /\ (0 <= 100 <= 2147483647 ->
           0 <= 100 <= 2147483647 ->
           pixelWidth blob = 100 /\ pixelHeight blob = 100).
Proof.
  apply (export_downloads_the_image decodesAll true (fun _ => [])
           numberedURL [] numberedURL_inj
           previewed_state previewed_browser previewed_request).
  - vm_compute. reflexivity.
  - exact previewed_succeeds.
  - exact previewed_previewOnly.
Defined.

End PhotoExportFacts.

(* ===================================================================== *)
(** ** Properties of the canvas pipeline and of the filters *)
(* ===================================================================== *)

Module CanvasFacts.
Import JS PhotoEdit PhotoExport.

(** X20. A rasterization never touches the canvases that exist: it
    leaves them as they are and adds its own canvas after them, one for
    each call whose image decodes and none otherwise. Without a 2D
    context the added canvas is as it was created; with one, its
    dimensions are what the attributes hold after the width and the
    height of the crop area have been assigned, and that is the size of
    the crop area when both are within the range of a canvas
    dimension. *)
Theorem getCroppedImg_adds_one_canvas
    (decodeImage : jsstring -> option (Z * Z)) (context2d : bool)
    (encodePNG : Canvas -> list N)
    (imageSrcLocal : jsstring) (cropPixels : CropArea)
    (rotationDeg : Q) (cssFilter : string) (d : Document) :
  exists added : list Canvas,
    snd (getCroppedImg decodeImage context2d encodePNG
           imageSrcLocal cropPixels rotationDeg cssFilter d)
    = d ++ added
    /\ List.length added
       = match decodeImage imageSrcLocal with
         | Some _ => 1%nat
         | None => 0%nat
         end
    /\ (context2d = false -> Forall (fun c => c = blankCanvas) added)
    /\ (context2d = true ->
        Forall (fun c =>
                  canvasWidth c = dimension 300 (width cropPixels)
                  /\ canvasHeight c = dimension 150 (height cropPixels))
               added)
    /\ (context2d = true ->
        0 <= width cropPixels <= 2147483647 ->
        0 <= height cropPixels <= 2147483647 ->
        Forall (fun c => canvasWidth c = width cropPixels
                         /\ canvasHeight c = height cropPixels) added).
Proof.
  rewrite PhotoEditFacts.getCroppedImg_run.
  destruct (decodeImage imageSrcLocal) as [[w h] |].
  - destruct context2d; cbv zeta; cbn [snd]; eexists;
      (split; [reflexivity |]); (split; [reflexivity |]).
    + split; [intros H; discriminate H |].
      split; [intros _; repeat constructor |].
      intros _ Hw Hh. constructor; [| constructor].
      cbn [drawnCanvas canvasWidth canvasHeight].
      split; apply PhotoEditFacts.dimension_in_range; assumption.
    + split; [intros _; repeat constructor |].
      split; intros H; discriminate H.
  - exists []. cbn [snd]. rewrite app_nil_r.
    repeat split; intros; constructor.
Qed.

(** X21. The image is turned about the centre of the canvas: whatever the
    angle, the centre of the canvas stays where it is, and when the
    rotation is the identity every point of the drawing ends up where it
    is drawn. The centre of the canvas is the centre of the drawing when
    the width and the height of the crop area are within the range of a
    canvas dimension. *)
Theorem rotation_pivots_on_centre (trig : Q -> Q * Q)
    (image : HTMLImageElement) (cropPixels : CropArea) (rotationDeg : Q)
    (cssFilter : string) :
  let surface := drawnCanvas image cropPixels rotationDeg cssFilter in
  (fst (onSurface trig (ops surface)
          (half (canvasWidth surface), half (canvasHeight surface)))
   == half (canvasWidth surface)
   /\ snd (onSurface trig (ops surface)
             (half (canvasWidth surface), half (canvasHeight surface)))
      == half (canvasHeight surface))%Q
  /\ (trig rotationDeg = (1, 0)%Q ->
      forall p : Q * Q,
        (fst (onSurface trig (ops surface) p) == fst p
         /\ snd (onSurface trig (ops surface) p) == snd p)%Q)
  /\ (0 <= width cropPixels <= 2147483647 ->
      0 <= height cropPixels <= 2147483647 ->
      canvasWidth surface = width cropPixels
      /\ canvasHeight surface = height cropPixels).
Proof.
  cbv zeta. unfold onSurface, drawnCanvas.
  cbn [ops canvasWidth canvasHeight fold_right applyOp fst snd].
  split; [| split].
  - destruct (trig rotationDeg) as [c s]. cbn [fst snd]. split; ring.
  - intros Hid p. rewrite Hid. cbn [fst snd]. split; ring.
  - intros Hw Hh.
    split; apply PhotoEditFacts.dimension_in_range; assumption.
Qed.

(** X22. The style of a filter is looked up by its key: each of the five
    keys gives the style of its entry, and a key that is not in the table
    gives the style [none]. *)
Theorem filterCss_lookup :
  (forall f : Filter, In f FILTERS -> filterCss (key f) = css f)
  /\ (forall k : string,
        ~ In k (map key FILTERS) -> filterCss k = "none"%string).
Proof.
  split.
  - unfold FILTERS. cbn [In].
    intros f [<- | [<- | [<- | [<- | [<- | []]]]]]; reflexivity.
  - intros k Hk. unfold filterCss.
    destruct (find (fun f => String.eqb (key f) k) FILTERS) as [f |] eqn:Hf;
      [| reflexivity].
    apply find_some in Hf. destruct Hf as [Hin Heq].
    apply String.eqb_eq in Heq. contradiction Hk. rewrite <- Heq.
    apply in_map. exact Hin.
Qed.

End CanvasFacts.

(* ===================================================================== *)
(** ** Properties of the 3D preview *)
(* ===================================================================== *)

Module ThreeCanvasFacts.
Import ThreeCanvas.

Lemma updateScene_last (l : list Scene) (s : Scene) (f : Scene -> Scene) :
  updateScene (List.length l) f (l ++ [s]) = l ++ [f s].
Proof.
  induction l as [| x l IH]; cbn [List.length app updateScene];
    [reflexivity |]. rewrite IH. reflexivity.
Qed.

Lemma nth_last (l : list Scene) (s d : Scene) :
  nth (List.length l) (l ++ [s]) d = s.
Proof. apply nth_middle. Qed.

Lemma balanced_effect (sz : Z * Z) (w : World) :
  active w = false -> balanced w -> balanced (effect (Some sz) w).
Proof.
  unfold balanced. intros Ha. rewrite Ha. intros [Hrel Hpend].
  cbn [effect animate scenes pending nextHandle cleanupRef readyCalledRef
       onReadyCalls active].
  rewrite !updateScene_last, Hpend. cbn [app].
  eexists. eexists. split; [reflexivity |].
  split; [exact Hrel |]. split; [repeat split |].
  split; [reflexivity |]. split; [reflexivity |]. cbn [raf]. lia.
Qed.

Lemma balanced_cleanup (w : World) :
  active w = true -> balanced w -> balanced (cleanup w).
Proof.
  unfold balanced. intros Ha. rewrite Ha.
  intros [before [s [Hsc [Hrel [Hheld [Hc [Hp Hr]]]]]]].
  unfold cleanup. rewrite Hc. cbn [active scenes pending].
  rewrite Hsc, updateScene_last, nth_last, Hp.
  unfold cancelAnimationFrame. cbn [filter fst].
  rewrite Nat.eqb_refl. cbn [negb]. split; [| reflexivity].
  apply Forall_app. split; [exact Hrel |].
  constructor; [repeat split | constructor].
Qed.

Lemma balanced_runFrame (h : nat) (w : World) :
  balanced w -> balanced (runFrame h w).
Proof.
  unfold balanced, runFrame. destruct (active w) eqn:Ha.
  - intros [before [s [Hsc [Hrel [Hheld [Hc [Hp Hr]]]]]]].
    rewrite Hp. cbn [find fst].
    destruct (Nat.eqb_spec (raf s) h) as [Heq | Hne].
    + cbn [animate active scenes pending nextHandle cleanupRef].
      rewrite ?Ha, Hsc, updateScene_last.
      unfold cancelAnimationFrame. cbn [filter fst].
      rewrite Heq, Nat.eqb_refl. cbn [negb app].
      eexists. eexists. split; [reflexivity |].
      split; [exact Hrel |]. split; [exact Hheld |].
      split; [exact Hc |]. split; [reflexivity |]. cbn [raf]. lia.
    + rewrite ?Ha. exists before, s. repeat split; try assumption;
        apply Hheld.
  - intros [Hrel Hp]. rewrite Hp. cbn [find]. rewrite ?Ha.
    split; assumption.
Qed.

Lemma resize_released (sz : Z * Z) (l : list Scene) :
  Forall released l ->
  map (fun s =>
         if observing s then
           {| raf := raf s; frames := frames s; size := sz;
              observing := observing s; geometryLive := geometryLive s;
              materialLive := materialLive s;
              rendererLive := rendererLive s; attached := attached s |}
         else s) l = l.
Proof.
  induction 1 as [| s l [Ho _] _ IH]; cbn [map]; [reflexivity |].
  rewrite Ho, IH. reflexivity.
Qed.

Lemma balanced_onResize (sz : Z * Z) (w : World) :
  balanced w -> balanced (onResize sz w).
Proof.
  unfold balanced, onResize. cbn [active scenes pending nextHandle
    cleanupRef]. destruct (active w).
  - intros [before [s [Hsc [Hrel [Hheld [Hc [Hp Hr]]]]]]].
    rewrite Hsc, map_app, (resize_released sz before Hrel). cbn [map].
    destruct Hheld as [Ho [Hg [Hm [Hre Hat]]]]. rewrite Ho.
    eexists. eexists. split; [reflexivity |].
    split; [exact Hrel |]. split; [repeat split; assumption |].
    split; [exact Hc |]. split; [exact Hp | exact Hr].
  - intros [Hrel Hp]. rewrite (resize_released sz _ Hrel).
    split; assumption.
Qed.

Lemma balanced_happen (e : Event) (w : World) :
  balanced w -> balanced (happen e w).
Proof.
  intros Hw. destruct e as [[sz |] | | h | sz]; cbn [happen].
  - destruct (active w) eqn:Ha; [exact Hw |].
    apply balanced_effect; assumption.
  - destruct (active w); exact Hw.
  - destruct (active w) eqn:Ha; [| exact Hw].
    apply balanced_cleanup; assumption.
  - apply balanced_runFrame. exact Hw.
  - apply balanced_onResize. exact Hw.
Qed.

Lemma balanced_happenAll (es : list Event) (w : World) :
  balanced w -> balanced (happenAll es w).
Proof.
  revert w. induction es as [| e es IH]; intros w Hw; cbn [happenAll
    fold_left]; [exact Hw |].
  apply IH, balanced_happen, Hw.
Qed.

Lemma balanced_initial : balanced initialWorld.
Proof. split; constructor. Qed.

(** X23. Whatever happens to an instance of the component, the effect
    and its cleanup running any number of times with frames and resizes
    in between, nothing leaks: after a cleanup every scene has released
    its observer, geometry, material, renderer and canvas element and no
    frame is requested, and after an effect exactly one frame is
    requested and only the scene in use holds anything. *)
Theorem preview_releases_everything (es : list Event) :
  (active (happenAll es initialWorld) = false ->
   Forall released (scenes (happenAll es initialWorld))
   /\ pending (happenAll es initialWorld) = [])
  /\ (active (happenAll es initialWorld) = true ->
      List.length (pending (happenAll es initialWorld)) = 1%nat
      /\ exists (before : list Scene) (s : Scene),
           scenes (happenAll es initialWorld) = before ++ [s]
           /\ Forall released before /\ held s).
Proof.
  pose proof (balanced_happenAll es initialWorld balanced_initial) as H.
  unfold balanced in H. split; intros Ha; rewrite Ha in H.
  - exact H.
  - destruct H as [before [s [Hsc [Hrel [Hheld [_ [Hp _]]]]]]].
    rewrite Hp. split; [reflexivity |]. exists before, s.
    repeat split; try assumption; apply Hheld.
Qed.

Lemma frames_when_hidden (hs : list nat) (w : World) :
  pending w = [] -> happenAll (map Frame hs) w = w.
Proof.
  intros Hp. induction hs as [| h hs IH]; cbn [map happenAll fold_left];
    [reflexivity |].
  cbn [happen]. unfold runFrame. rewrite Hp. cbn [find]. exact IH.
Qed.

(** X24. Once the cleanup has run the loop has stopped: whatever
    frame handles the browser is asked to run, none of them runs
    [animate], and everything stays exactly as the cleanup has left
    it. *)
Theorem no_frame_after_hide (es : list Event) (hs : list nat) :
  active (happenAll es initialWorld) = false ->
  happenAll (map Frame hs) (happenAll es initialWorld)
  = happenAll es initialWorld.
Proof.
  intros Ha. apply frames_when_hidden.
  pose proof (balanced_happenAll es initialWorld balanced_initial) as H.
  unfold balanced in H. rewrite Ha in H. apply H.
Qed.

Lemma no_frame_after_hide_witness :
  happenAll (map Frame [1; 2; 3; 4]%nat)
    (happenAll [Show (Some (300, 200)); Frame 1%nat; Frame 2%nat; Hide]
       initialWorld)
  = happenAll [Show (Some (300, 200)); Frame 1%nat; Frame 2%nat; Hide]
      initialWorld.
Proof.
  apply (no_frame_after_hide
           [Show (Some (300, 200)); Frame 1%nat; Frame 2%nat; Hide]
           [1; 2; 3; 4]%nat).
  reflexivity.
Defined.

Lemma ready_happen (e : Event) (w : World) :
  onReadyCalls w = (if readyCalledRef w then 1 else 0)%nat ->
  onReadyCalls (happen e w)
  = (if readyCalledRef (happen e w) then 1 else 0)%nat
  /\ (readyCalledRef w = true -> readyCalledRef (happen e w) = true).
Proof.
  intros H. destruct e as [[sz |] | | h | sz]; cbn [happen].
  - destruct (active w); [split; [exact H | tauto] |].
    cbn [effect animate onReadyCalls readyCalledRef].
    destruct (readyCalledRef w); split; try reflexivity; try exact H.
    rewrite H. reflexivity.
  - destruct (active w); split; try exact H; tauto.
  - destruct (active w); [| split; [exact H | tauto]].
    unfold cleanup. destruct (cleanupRef w);
      cbn [onReadyCalls readyCalledRef]; split; try exact H; tauto.
  - unfold runFrame.
    destruct (find (fun e => (fst e =? h)%nat) (pending w)) as [[h' i] |];
      cbn [animate onReadyCalls readyCalledRef]; split; try exact H; tauto.
  - cbn [onResize onReadyCalls readyCalledRef]. split; [exact H | tauto].
Qed.

(** X25. [onReady] is called at most once in the life of an instance,
    however often its effect runs: it has been called once exactly when
    the ref that guards it is set, and never again after that. *)
Theorem onReady_at_most_once (es : list Event) :
  onReadyCalls (happenAll es initialWorld)
  = (if readyCalledRef (happenAll es initialWorld) then 1 else 0)%nat
  /\ (onReadyCalls (happenAll es initialWorld) <= 1)%nat.
Proof.
  assert (H : onReadyCalls (happenAll es initialWorld)
              = (if readyCalledRef (happenAll es initialWorld)
                 then 1 else 0)%nat).
  { apply (EventLogFacts.fold_left_invariant World Event
             (fun acc e => happen e acc)
             (fun w => onReadyCalls w
                       = (if readyCalledRef w then 1 else 0)%nat)).
    - intros w e Hw. apply (ready_happen e w Hw).
    - reflexivity. }
  split; [exact H |]. rewrite H.
  destruct (readyCalledRef (happenAll es initialWorld)); lia.
Qed.

End ThreeCanvasFacts.

(* ===================================================================== *)
(** ** The label of a task, and the ids of a session *)
(* ===================================================================== *)

Module LabelFacts.
Import TestMode TestModeFacts.

(** X26. The label of a row shows the state of its task, [Pendiente],
    [En curso] or [Completada], with one exception: a task completed by
    an event whose time is the number 0 is labelled [Pendiente], since
    the label takes an end time of 0 for no end time. *)
Theorem label_shows_state (events0 : list LogEvent) (p : Panel)
    (k : TaskKey) :
  reachable events0 p ->
  (endT (get k (taskState p)) <> Some 0 ->
   exists ph : Phase,
     phase (get k (taskState p)) = Some ph
     /\ status (get k (taskState p)) =
        match ph with
        | Pending => "Pendiente"
        | Running => "En curso"
        | Completed => "Completada"
        end%string)
  /\ (endT (get k (taskState p)) = Some 0 ->
      phase (get k (taskState p)) = Some Completed
      /\ status (get k (taskState p)) = "Pendiente"%string).
Proof.
  intros Hp. pose proof (shaped_reachable events0 p Hp k) as Hk.
  destruct (phase (get k (taskState p))) as [ph |] eqn:Hph; [| congruence].
  split.
  - intros Hz. exists ph. split; [reflexivity |].
    apply status_of_phase; assumption.
  - intros Hz. unfold phase in Hph. unfold status. rewrite Hz in *.
    destruct (running (get k (taskState p)));
      destruct (startT (get k (taskState p))); try discriminate Hph.
    injection Hph as <-. split; reflexivity.
Qed.

Lemma label_shows_state_witness :
  (endT (get sound (taskState played_after_start)) <> Some 0 ->
   exists ph : Phase,
     phase (get sound (taskState played_after_start)) = Some ph
     /\ status (get sound (taskState played_after_start)) =
        match ph with
        | Pending => "Pendiente"
        | Running => "En curso"
        | Completed => "Completada"
        end%string)
  /\ (endT (get sound (taskState played_after_start)) = Some 0 ->
      phase (get sound (taskState played_after_start)) = Some Completed
      /\ status (get sound (taskState played_after_start))
         = "Pendiente"%string).
Proof.
  apply (label_shows_state [] played_after_start sound).
  apply reachable_receiveEvent, reachable_clickStart, reach_mount.
Defined.

End LabelFacts.

Module IdRunFacts.
Import JS.

(** X27. In a session of the save form that starts with no posts, the
    ids of the posts are pairwise distinct exactly when the readings of
    the clock taken for them, every fourth reading, are pairwise
    distinct. *)
Theorem session_ids_distinct (clock : nat -> Z)
    (Date_getTime : jsstring -> Scheduler.timeValue)
    (forms : list (jsstring * jsstring * jsstring)) (local0 : jsstring) :
  NoDup (map Scheduler.id
           (Scheduler.scheduledPosts
              (Scheduler.session clock Date_getTime forms
                 (Scheduler.initialApp local0))))
  <-> NoDup (map (fun k => clock (4 * k)%nat) (seq 0 (List.length forms))).
Proof. apply IdFacts.session_ids_NoDup. Qed.

End IdRunFacts.
